(** * luainstaller: the public API ([analyze], [build]) and the dependency
    traversal it drives.

    The development follows [luainstaller/__init__.py].  The modules that
    file imports ([dependency_analyzer], [engine], [exceptions], [logger])
    are collaborators: the analyzer and the engine are fields of a [Host],
    the traversal of the analyzer is modelled separately from the design
    document. *)

From Stdlib Require Import ZArith Lia.
From stdpp Require Import base option list sets gmap strings relations pretty.

Open Scope string_scope.
Open Scope list_scope.
Open Scope nat_scope.

(** ** Exceptions *)

(** Modelled from the spec: the exception classes of the [exceptions]
    module, which [__init__.py] only imports.  The payloads are the ones
    sections 4.3 and 7 of the design give to each error kind;
    [ScriptNotFoundError] carries the path it is raised with in [build]. *)
Inductive LuaInstallerException : Type :=
  | ScriptNotFoundError (script_path : string)
  | CircularDependencyError (chain : list string)
  | DynamicRequireError (script_path : string) (line : nat) (statement : string)
  | DependencyLimitExceededError (limit : Z) (count : Z) (module_name : string)
  | ModuleNotFoundError (script_path : string) (module_name : string)
                        (searched : list string)
  | CModuleNotSupportedError (script_path : string) (module_name : string)
                             (module_path : string)
  | LuastaticNotFoundError
  | CompilerNotFoundError
  | CompilationFailedError (return_code : Z) (stderr : string)
  | OutputFileNotFoundError (expected : string).

(** ** Effects of the API layer *)

(** What a call of the API does to the outside world, in order. *)
Inductive Event : Type :=
  | EvAnalyze (entry : string) (max_dependencies : Z)
  | EvCompile (entry : string) (dependencies : list string)
              (output : option string) (verbose : bool)
  | EvLogSuccess (source action message : string).

(** A computation appends events to the trace and either raises or
    returns. *)
Definition Run (A : Type) : Type :=
  list Event -> list Event * (LuaInstallerException + A).

Definition ret {A} (a : A) : Run A := fun tr => (tr, inr a).

Definition raise {A} (e : LuaInstallerException) : Run A :=
  fun tr => (tr, inl e).

Definition bind {A B} (m : Run A) (k : A -> Run B) : Run B :=
  fun tr =>
    match m tr with
    | (tr', inl e) => (tr', inl e)
    | (tr', inr a) => k a tr'
    end.

Definition emit (ev : Event) : Run () := fun tr => (tr ++ [ev], inr ()).

Definition lift {A} (r : LuaInstallerException + A) : Run A :=
  fun tr => (tr, r).

Declare Scope run_scope.
Delimit Scope run_scope with run.
Notation "x <- m ;; k" := (bind m (fun x => k))
  (at level 100, m at next level, right associativity) : run_scope.
Notation "m ;;; k" := (bind m (fun _ => k))
  (at level 100, right associativity) : run_scope.

(** The trace and the outcome of a call started from a clean trace. *)
Definition trace_of {A} (m : Run A) : list Event := fst (m []).
Definition outcome_of {A} (m : Run A) : LuaInstallerException + A := snd (m []).

(** ** The host: file system, analyzer and engine *)

(** Paths are strings.  [build] keeps resolved [Path] objects in a set and
    appends their [str]; a resolved path is absolute and normalised, so
    two of them are equal exactly when their strings are. *)
Record Host : Type := {
  (** [Path(p).exists()] *)
  path_exists : string -> bool;
  (** [str(Path(p).resolve())] *)
  path_resolve : string -> string;
  (** [Path(p).name] *)
  path_name : string -> string;
  (** [dependency_analyzer.analyze_dependencies(entry, max_dependencies)] *)
  analyze_dependencies : string -> Z -> LuaInstallerException + list string;
  (** [engine.compile_lua_script(entry, dependencies, output, verbose)] *)
  compile_lua_script :
    string -> list string -> option string -> bool ->
    LuaInstallerException + string
}.

Module Api.
Section WithHost.

Context (host : Host).

Definition call_analyze (entry : string) (max_dependencies : Z)
  : Run (list string) :=
  (emit (EvAnalyze entry max_dependencies) ;;;
   lift (analyze_dependencies host entry max_dependencies))%run.

Definition call_compile (entry : string) (dependencies : list string)
           (output : option string) (verbose : bool) : Run string :=
  (emit (EvCompile entry dependencies output verbose) ;;;
   lift (compile_lua_script host entry dependencies output verbose))%run.

Definition log_success (source action message : string) : Run () :=
  emit (EvLogSuccess source action message).

(** [analyze(entry, max_deps=36)] *)
Definition analyze (entry : string) (max_deps : option Z)
  : Run (list string) :=
  call_analyze entry (default 36%Z max_deps).

(** The [for req in requires] loop of [build]: [dependencies] is the
  list being appended to, [dependency_set] the set of resolved paths. *)
Fixpoint merge_requires (requires : list string)
         (dependencies : list string) (dependency_set : gset string)
  : LuaInstallerException + list string :=
  match requires with
  | [] => inr dependencies
  | req :: rest =>
      if negb (path_exists host req) then inl (ScriptNotFoundError req)
      else
        let resolved := path_resolve host req in
        if decide (resolved ∈ dependency_set)
        then merge_requires rest dependencies dependency_set
        else merge_requires rest (dependencies ++ [resolved])
                            ({[resolved]} ∪ dependency_set)
  end.

(** [if requires:] is false for [None] and for the empty list. *)
Definition truthy (requires : option (list string)) : bool :=
  match requires with
  | Some (_ :: _) => true
  | _ => false
  end.

(** [build(entry, requires=None, max_deps=36, output=None, manual=False)] *)
Definition build (entry : string) (requires : option (list string))
           (max_deps : Z) (output : option string) (manual : bool)
  : Run string :=
  (dependencies <- (if manual then ret [] else call_analyze entry max_deps) ;;
   dependencies <-
     (if truthy requires
      then lift (merge_requires (default [] requires) dependencies
                   (list_to_set (path_resolve host <$> dependencies)))
      else ret dependencies) ;;
   result <- call_compile entry dependencies output false ;;
   log_success "api" "build"
     ("Built " +:+ path_name host entry +:+ " -> " +:+ path_name host result) ;;;
   ret result)%run.

(** The explicit requires that the merge adds, as the interface
  description words it: a require is appended when its resolved path
  is neither among the (resolved) analyzed dependencies nor the
  resolved path of an earlier require; the order is the given one. *)
Fixpoint appended_requires (analyzed earlier : list string)
         (requires : list string) : list string :=
  match requires with
  | [] => []
  | req :: rest =>
      let c := path_resolve host req in
      (if bool_decide (c ∈ analyzed ∨ c ∈ earlier) then [] else [c])
        ++ appended_requires analyzed (earlier ++ [c]) rest
  end.

(** The event a successful [build] logs. *)
Definition build_log (entry result : string) : Event :=
  EvLogSuccess "api" "build"
    ("Built " +:+ path_name host entry +:+ " -> " +:+ path_name host result).

(** What remains of a [build] once the dependency list is settled: the
  engine is invoked, and its success is logged. *)
Definition packaging_events (entry : string) (dependencies : list string)
           (output : option string) : list Event :=
  EvCompile entry dependencies output false ::
  match compile_lua_script host entry dependencies output false with
  | inr result => [build_log entry result]
  | inl _ => []
  end.

(** The events of the analysis step. *)
Definition analysis_events (entry : string) (max_deps : Z) (manual : bool)
  : list Event :=
  if manual then [] else [EvAnalyze entry max_deps].

(** The dependency list [build] settles on before it calls the engine,
  given what the analysis step produced. *)
Definition merged (requires : option (list string)) (analyzed : list string)
  : LuaInstallerException + list string :=
  if truthy requires
  then merge_requires (default [] requires) analyzed
         (list_to_set (path_resolve host <$> analyzed))
  else inr analyzed.

(** The analysis step went through when manual mode skipped it or the
  analyzer returned. *)
Definition analysis_gave (entry : string) (max_deps : Z) (manual : bool)
           (analyzed : list string) : Prop :=
  if manual then analyzed = []
  else analyze_dependencies host entry max_deps = inr analyzed.

Definition on_disk (req : string) : Prop := path_exists host req = true.

(** The engine calls of a trace. *)
Definition is_engine_call (ev : Event) : bool :=
  match ev with
  | EvCompile _ _ _ _ => true
  | _ => false
  end.

Definition engine_calls (tr : list Event) : list Event :=
  List.filter is_engine_call tr.

(** The first require that is not on disk, if any. *)
Definition first_missing (requires : list string) : option string :=
  head (filter (fun req => path_exists host req = false) requires).

End WithHost.

(** The names [__init__.py] binds in the package: what it imports, what
    it assigns and defines, and the submodules its imports load. *)
Definition bound_names : list string :=
  ["Path"; "analyze_dependencies"; "compile_lua_script";
   "get_environment_status";
   "CModuleNotSupportedError"; "CircularDependencyError"; "CompilationError";
   "CompilationFailedError"; "CompilerNotFoundError";
   "DependencyAnalysisError"; "DependencyLimitExceededError";
   "DynamicRequireError"; "LuaInstallerException"; "LuastaticNotFoundError";
   "ModuleNotFoundError"; "OutputFileNotFoundError"; "ScriptNotFoundError";
   "LogEntry"; "LogLevel"; "clear_logs"; "_get_logs"; "log_error";
   "log_success";
   "__version__"; "__author__"; "__email__"; "__url__"; "__all__";
   "get_logs"; "analyze"; "build";
   "dependency_analyzer"; "engine"; "exceptions"; "logger"].

Definition __version__ : string := "1.0.0".

End Api.

(** ** The dependency traversal *)

Module Analyzer.

(** One require call found in a source text: the extracted argument (the
    decoded literal, or the raw argument text), whether the argument is a
    literal string, and the line of the call. *)
Record RequireSite : Type := {
  site_argument : string;
  site_is_literal : bool;
  site_line : nat
}.

Global Instance RequireSite_eq_dec : EqDecision RequireSite.
Proof. solve_decision. Defined.

(** The three outcomes of resolving a module name. *)
Inductive ResolvedModule : Type :=
  | ScriptFile (path : string)
  | NativeModule (path : string)
  | Unresolved (searched : list string).

(** The source files as the traversal sees them: canonicalisation of a
    path, whether a path is a readable script, the scanner applied to the
    text of the file at a canonical path, and the resolver applied to a
    module name, searching from the entry script. *)
Record SourceTree : Type := {
  canonical : string -> string;
  is_script : string -> bool;
  scan : string -> list RequireSite;
  resolve : string -> string -> ResolvedModule
}.

(** Canonical paths in discovery order (the entry first), and the
    recorded edges (unit, resolved dependency). *)
Record DependencyGraph : Type := {
  nodes : list string;
  edges : list (string * string)
}.

Definition add_edge (u p : string) (g : DependencyGraph) : DependencyGraph :=
  {| nodes := nodes g; edges := edges g ++ [(u, p)] |}.

Definition add_node (p : string) (g : DependencyGraph) : DependencyGraph :=
  {| nodes := nodes g ++ [p]; edges := edges g |}.

Definition predecessors (g : DependencyGraph) (v : string) : list string :=
  (filter (fun e => e.2 = v) (edges g)).*1.

Fixpoint first_some {A B} (f : A -> option B) (l : list A) : option B :=
  match l with
  | [] => None
  | x :: rest =>
      match f x with
      | Some y => Some y
      | None => first_some f rest
      end
  end.

(** Follow recorded edges backward from [current] until [target] is
    met; the answer lists the units from [target] down to [current]. *)
Fixpoint ancestor_path (g : DependencyGraph) (fuel : nat)
         (target current : string) : option (list string) :=
  if decide (current = target) then Some [current]
  else
    match fuel with
    | O => None
    | S n =>
        (fun l => l ++ [current])
          <$> first_some (ancestor_path g n target) (predecessors g current)
    end.

Section Traversal.

Context (tree : SourceTree) (root : string) (max_nodes : Z).

(** Modelled from the spec: the handling of one require site of the
    unit [u] (section 4.3): a non-literal site, an unresolved module
    and a native module abort; a resolved path that is an ancestor of
    [u] aborts with the cycle; a new node is admitted only if the number
    of dependencies including it stays within [max_nodes], and is then
    enqueued; the edge is recorded.  The bound limits the dependencies
    ([max_deps] of [analyze] is the maximum number of dependencies): the
    entry, the first node of the graph, is not counted. *)
Definition process_site (u : string)
           (st : DependencyGraph * list string) (s : RequireSite)
  : LuaInstallerException + (DependencyGraph * list string) :=
  let '(g, queue) := st in
  if negb (site_is_literal s)
  then inl (DynamicRequireError u (site_line s) (site_argument s))
  else
    match resolve tree root (site_argument s) with
    | Unresolved searched =>
        inl (ModuleNotFoundError u (site_argument s) searched)
    | NativeModule p =>
        inl (CModuleNotSupportedError u (site_argument s) p)
    | ScriptFile p =>
        match ancestor_path g (length (nodes g)) p u with
        | Some path => inl (CircularDependencyError (path ++ [p]))
        | None =>
            if decide (p ∈ nodes g) then inr (add_edge u p g, queue)
            else
              let count := Z.of_nat (length (nodes g)) in
              if decide (max_nodes < count)%Z
              then inl (DependencyLimitExceededError
                          max_nodes count (site_argument s))
              else inr (add_node p (add_edge u p g), queue ++ [p])
        end
    end.

(** The sites of one unit, in the order the scanner reported them. *)
Fixpoint visit_sites (u : string) (sites : list RequireSite)
         (st : DependencyGraph * list string)
  : LuaInstallerException + (DependencyGraph * list string) :=
  match sites with
  | [] => inr st
  | s :: rest =>
      match process_site u st s with
      | inl e => inl e
      | inr st' => visit_sites u rest st'
      end
  end.

(** Modelled from the spec: the breadth-first loop of section 4.3.
    Units are dequeued in discovery order; [None] means the loop was
    cut before the queue was empty. *)
Fixpoint traverse (fuel : nat) (g : DependencyGraph) (queue : list string)
  : option (LuaInstallerException + DependencyGraph) :=
  match queue with
  | [] => Some (inr g)
  | u :: rest =>
      match fuel with
      | O => None
      | S n =>
          match visit_sites u (scan tree u) (g, rest) with
          | inl e => Some (inl e)
          | inr (g', queue') => traverse n g' queue'
          end
      end
  end.

End Traversal.

(** Modelled from the spec: [analyze_dependencies(entry,
    max_dependencies)] of the [dependency_analyzer] module, which is
    not part of the sources at hand.  The entry must be a script; its
    canonical path is the first node; the bound is checked before every
    insertion of a dependency; the answer is every node but the entry,
    in discovery order.  The units read are the entry and at most
    [max_dependencies] dependencies, which gives the fuel of the loop. *)
Definition analyze_dependencies_run (tree : SourceTree) (entry : string)
           (max_dependencies : Z)
  : option (LuaInstallerException + list string) :=
  if negb (is_script tree entry) then Some (inl (ScriptNotFoundError entry))
  else
    let root := canonical tree entry in
    match traverse tree root max_dependencies (S (Z.to_nat max_dependencies))
            {| nodes := [root]; edges := [] |} [root] with
    | None => None
    | Some (inl e) => Some (inl e)
    | Some (inr g) => Some (inr (tail (nodes g)))
    end.

(** The require graph of the sources: [u] requires [v] when a literal
    site of [u] resolves to the script [v]. *)
Definition requires_edge (tree : SourceTree) (root : string)
           (u v : string) : Prop :=
  ∃ s, s ∈ scan tree u ∧ site_is_literal s = true
       ∧ resolve tree root (site_argument s) = ScriptFile v.

(** The units the entry reaches, itself included. *)
Definition reachable (tree : SourceTree) (root : string) (v : string) : Prop :=
  rtc (requires_edge tree root) root v.

(** A site that static analysis can follow. *)
Definition site_followable (tree : SourceTree) (root : string)
           (s : RequireSite) : Prop :=
  site_is_literal s = true
  ∧ ∃ v, resolve tree root (site_argument s) = ScriptFile v.

(** A literal site resolves to a script. *)
Definition site_resolvable (tree : SourceTree) (root : string)
           (s : RequireSite) : Prop :=
  site_is_literal s = true →
  ∃ v, resolve tree root (site_argument s) = ScriptFile v.

(** Every site of every reachable unit can be followed. *)
Definition all_followable (tree : SourceTree) (root : string) : Prop :=
  ∀ u s, reachable tree root u → s ∈ scan tree u → site_followable tree root s.

(** Every literal site of every reachable unit resolves to a script. *)
Definition all_resolvable (tree : SourceTree) (root : string) : Prop :=
  ∀ u s, reachable tree root u → s ∈ scan tree u → site_resolvable tree root s.

(** No reachable unit requires itself, directly or not. *)
Definition acyclic (tree : SourceTree) (root : string) : Prop :=
  ∀ u, reachable tree root u → ¬ tc (requires_edge tree root) u u.

(** A list of units in which each requires the next. *)
Fixpoint chain (tree : SourceTree) (root : string) (l : list string) : Prop :=
  match l with
  | u :: (v :: _) as rest => requires_edge tree root u v ∧ chain tree root rest
  | _ => True
  end.

(** A require cycle, in cycle order: it comes back to its first unit. *)
Definition is_cycle (tree : SourceTree) (root : string) (c : list string) : Prop :=
  ∃ p mid, c = p :: mid ++ [p] ∧ chain tree root c
           ∧ ∀ v, v ∈ c → reachable tree root v.

(** ** The recorded graph during a traversal *)

Definition edge (g : DependencyGraph) (a b : string) : Prop :=
  (a, b) ∈ edges g.

(** [walk g l x y]: [l] lists the units of a path of recorded edges from
    [x] to [y], both included. *)
Inductive walk (g : DependencyGraph) : list string → string → string → Prop :=
  | walk_here x : walk g [x] x x
  | walk_step l x y z :
      walk g l x y → edge g y z → walk g (l ++ [z]) x z.

Section Invariant.

Context (tree : SourceTree) (root : string) (max_nodes : Z).

(** The site [s] of the unit [u] has been followed: it is literal, it
    resolves to a script, and the edge is recorded. *)
Definition site_ok (g : DependencyGraph) (u : string) (s : RequireSite) : Prop :=
  site_is_literal s = true
  ∧ ∃ v, resolve tree root (site_argument s) = ScriptFile v ∧ edge g u v.

(** What holds of the graph at every point of a traversal. *)
Record Good (g : DependencyGraph) : Prop := {
  good_nodup : NoDup (nodes g);
  good_root : root ∈ nodes g;
  good_reach : ∀ v, v ∈ nodes g → reachable tree root v;
  good_edges : ∀ a b, edge g a b →
                      requires_edge tree root a b ∧ a ∈ nodes g ∧ b ∈ nodes g;
  good_acyclic : ∀ x, ¬ tc (edge g) x x;
  good_size : (Z.of_nat (length (nodes g)) ≤ 1 + Z.max 0 max_nodes)%Z
}.

(** What an error of the traversal says about the sources. *)
Definition sound_error (e : LuaInstallerException) : Prop :=
  match e with
  | CircularDependencyError c => is_cycle tree root c
  | DynamicRequireError f ln raw =>
      reachable tree root f
      ∧ ∃ s, s ∈ scan tree f ∧ site_is_literal s = false
             ∧ site_line s = ln ∧ site_argument s = raw
  | DependencyLimitExceededError lim _ _ =>
      lim = max_nodes
      ∧ ∃ found, NoDup found ∧ (∀ v, v ∈ found → reachable tree root v)
                 ∧ (1 + max_nodes < Z.of_nat (length found))%Z
  | ModuleNotFoundError f name searched =>
      reachable tree root f
      ∧ ∃ s, s ∈ scan tree f ∧ site_is_literal s = true
             ∧ site_argument s = name
             ∧ resolve tree root name = Unresolved searched
  | CModuleNotSupportedError f name p =>
      reachable tree root f
      ∧ ∃ s, s ∈ scan tree f ∧ site_is_literal s = true
             ∧ site_argument s = name
             ∧ resolve tree root name = NativeModule p
  | _ => False
  end.

(** What holds after the sites [sites] of the unit [u] were processed
    from the graph [g] and the queue [q]. *)
Definition step_post (u : string) (g : DependencyGraph) (q : list string)
           (sites : list RequireSite)
           (r : LuaInstallerException + (DependencyGraph * list string)) : Prop :=
  match r with
  | inl e => sound_error e
  | inr (g', q') =>
      Good g' ∧ Forall (site_ok g' u) sites
      ∧ (∀ a b, edge g a b → edge g' a b)
      ∧ ∃ new, nodes g' = nodes g ++ new ∧ q' = q ++ new
  end.

(** What holds when the loop started from [g] has ended. *)
Definition traverse_post (g : DependencyGraph)
           (r : LuaInstallerException + DependencyGraph) : Prop :=
  match r with
  | inl e => sound_error e
  | inr g' =>
      Good g'
      ∧ (∀ x, x ∈ nodes g' → Forall (site_ok g' x) (scan tree x))
      ∧ ∃ more, nodes g' = nodes g ++ more
  end.

End Invariant.

(** [analyze_dependencies] as the API calls it.  The loop is never cut
    ([analyze_dependencies_run] always answers, see
    [AnalyzerFacts.analyze_dependencies_run_sound]); a cut would mean that
    more than [max_dependencies] dependencies were read. *)
Definition analyze_dependencies (tree : SourceTree) (entry : string)
           (max_dependencies : Z) : LuaInstallerException + list string :=
  match analyze_dependencies_run tree entry max_dependencies with
  | Some r => r
  | None =>
      inl (DependencyLimitExceededError max_dependencies max_dependencies entry)
  end.

(** What an answer of the analyzer says about the sources. *)
Definition analysis_sound (tree : SourceTree) (entry : string)
           (max_dependencies : Z)
           (r : LuaInstallerException + list string) : Prop :=
  let root := canonical tree entry in
  match r with
  | inr deps =>
      is_script tree entry = true
      ∧ NoDup (root :: deps)
      ∧ (∀ v, v ∈ root :: deps ↔ reachable tree root v)
      ∧ all_followable tree root
      ∧ acyclic tree root
      ∧ (Z.of_nat (length deps) ≤ Z.max 0 max_dependencies)%Z
  | inl (ScriptNotFoundError p) => p = entry ∧ is_script tree entry = false
  | inl e =>
      is_script tree entry = true ∧ sound_error tree root max_dependencies e
  end.

(** The reachable units fit the bound: they all lie in a list of at
    most [max_dependencies] paths. *)
Definition within_bound (tree : SourceTree) (root : string)
           (max_dependencies : Z) : Prop :=
  ∃ universe : list string,
    (∀ v, reachable tree root v → v ∈ universe)
    ∧ (Z.of_nat (length universe) ≤ max_dependencies)%Z.

(** The dependencies fit the bound: the reachable units, the entry among
    them, all lie in a list of at most [1 + max_dependencies] paths. *)
Definition within_limit (tree : SourceTree) (root : string)
           (max_dependencies : Z) : Prop :=
  ∃ universe : list string,
    (∀ v, reachable tree root v → v ∈ universe)
    ∧ (Z.of_nat (length universe) ≤ 1 + max_dependencies)%Z.

(** The dependencies of the entry: the units it reaches by one require
    or more, each listed once. *)
Definition dependencies_are (tree : SourceTree) (root : string)
           (deps : list string) : Prop :=
  NoDup deps ∧ ∀ v, v ∈ deps ↔ tc (requires_edge tree root) root v.

End Analyzer.

(** The host whose analyzer is the traversal over a source tree: the file
    system is the one of the tree. *)
Definition host_of (tree : Analyzer.SourceTree) (name : string -> string)
           (engine : string -> list string -> option string -> bool ->
                     LuaInstallerException + string) : Host :=
  {| path_exists := Analyzer.is_script tree;
     path_resolve := Analyzer.canonical tree;
     path_name := name;
     analyze_dependencies := Analyzer.analyze_dependencies tree;
     compile_lua_script := engine |}.

(** ** Checking a finite project *)

(** Decidable checks over a finite list of units, from which the
    properties of the require graph follow. *)
Module Checks.
Import Analyzer.

Section WithTree.

Context (tree : SourceTree) (root : string).

(** The script a site leads to, if it can be followed. *)
Definition target (s : RequireSite) : option string :=
  if site_is_literal s
  then match resolve tree root (site_argument s) with
       | ScriptFile v => Some v
       | _ => None
       end
  else None.

Definition targets (u : string) : list string := omap target (scan tree u).

(** Every unit of [universe] requires units of [within] only. *)
Definition closed_in (within universe : list string) : bool :=
  forallb (fun u => forallb (fun v => bool_decide (v ∈ within)) (targets u))
          universe.

Definition followable (universe : list string) : bool :=
  forallb (fun u => forallb (fun s => bool_decide (is_Some (target s)))
                            (scan tree u))
          universe.

Definition resolvable (universe : list string) : bool :=
  forallb (fun u =>
             forallb (fun s => negb (site_is_literal s)
                               || bool_decide (is_Some (target s)))
                     (scan tree u))
          universe.

(** Every require goes down in rank. *)
Definition ranked (rank : string -> nat) (universe : list string) : bool :=
  forallb (fun u => forallb (fun v => bool_decide (rank v < rank u)) (targets u))
          universe.

(** Each unit of [deps] is required by the root or by a unit listed
    before it. *)
Fixpoint derivable (seen deps : list string) : bool :=
  match deps with
  | [] => true
  | v :: rest =>
      existsb (fun u => bool_decide (v ∈ targets u)) seen
      && derivable (seen ++ [v]) rest
  end.

End WithTree.

End Checks.

(** ** Small projects *)

Module Demo.
Import Analyzer.

Definition lit (name : string) (line : nat) : RequireSite :=
  {| site_argument := name; site_is_literal := true; site_line := line |}.

Definition dyn (raw : string) (line : nat) : RequireSite :=
  {| site_argument := raw; site_is_literal := false; site_line := line |}.

Fixpoint assoc {A} (k : string) (l : list (string * A)) : option A :=
  match l with
  | [] => None
  | (k', v) :: rest => if decide (k = k') then Some v else assoc k rest
  end.

(** A project given by its files (canonical path, require sites) and by
    the scripts its module names resolve to. *)
Definition project (files : list (string * list RequireSite))
           (modules : list (string * string)) : SourceTree :=
  {| canonical := fun p => p;
     is_script := fun p => bool_decide (is_Some (assoc p files));
     scan := fun p => default [] (assoc p files);
     resolve := fun _ name =>
                  match assoc name modules with
                  | Some path => ScriptFile path
                  | None => Unresolved [name +:+ ".lua"; name +:+ "/init.lua"]
                  end |}.

(** An engine that answers with the requested output path. *)
Definition engine (entry : string) (dependencies : list string)
           (output : option string) (verbose : bool)
  : LuaInstallerException + string :=
  inr (default "a.out" output).

Definition host (tree : SourceTree) : Host :=
  host_of tree (fun p => p) engine.

(** [main] requires [util]; [util] requires nothing. *)
Definition main_util : SourceTree :=
  project [("main.lua", [lit "util" 1]); ("util.lua", [])]
          [("util", "util.lua")].

(** [a] requires [b]; [b] requires [a]. *)
Definition mutual : SourceTree :=
  project [("a.lua", [lit "b" 1]); ("b.lua", [lit "a" 1])]
          [("a", "a.lua"); ("b", "b.lua")].

(** [main] requires [left] and [right]; both require [shared]. *)
Definition diamond : SourceTree :=
  project [("main.lua", [lit "left" 1; lit "right" 2]);
           ("left.lua", [lit "shared" 1]);
           ("right.lua", [lit "shared" 1]);
           ("shared.lua", [])]
          [("left", "left.lua"); ("right", "right.lua");
           ("shared", "shared.lua")].

Definition diamond_rank (u : string) : nat :=
  if decide (u = "main.lua") then 2
  else if decide (u = "shared.lua") then 0 else 1.

(** [a] has a computed require before it requires [b]; [b] requires
    [a]. *)
Definition dynamic_then_mutual : SourceTree :=
  project [("a.lua", [dyn "prefix .. name" 1; lit "b" 2]);
           ("b.lua", [lit "a" 1])]
          [("a", "a.lua"); ("b", "b.lua")].

(** [main] requires a module that is nowhere, then [helper]; [helper]
    has a computed require. *)
Definition missing_then_helper : SourceTree :=
  project [("main.lua", [lit "nowhere" 1; lit "helper" 2]);
           ("helper.lua", [dyn "name" 1])]
          [("helper", "helper.lua")].

(** [main] requires [util], then has a computed require. *)
Definition util_then_dynamic : SourceTree :=
  project [("main.lua", [lit "util" 1; dyn "name" 2]); ("util.lua", [])]
          [("util", "util.lua")].

Definition util_rank (u : string) : nat :=
  if decide (u = "main.lua") then 1 else 0.

(** [main] has a computed require, then requires [one] and [two]. *)
Definition dynamic_then_two : SourceTree :=
  project [("main.lua", [dyn "name" 1; lit "one" 2; lit "two" 3]);
           ("one.lua", []); ("two.lua", [])]
          [("one", "one.lua"); ("two", "two.lua")].

(** The host of [mutual] with another analyzer. *)
Definition mutual_with_other_analyzer : Host :=
  Build_Host (path_exists (host mutual)) (path_resolve (host mutual))
             (path_name (host mutual)) (fun _ _ => inr ["b.lua"])
             (compile_lua_script (host mutual)).

End Demo.

(** ** The graphical front end ([gui.py]) *)

Module Gui.

Definition WINDOW_WIDTH : Z := 520.
Definition WINDOW_HEIGHT : Z := 320.

Definition newline : string := String (Ascii.ascii_of_nat 10) "".

(** What a collaborator called from the worker raises: an exception of
    the package, caught by [except LuaInstallerException], or any other
    exception, caught by [except Exception]; [text] is [str(e)]. *)
Inductive Raised : Type :=
  | Installer (e : LuaInstallerException)
  | Unexpected (text : string).

(** What [gui.py] takes from the standard library and from the modules it
    imports. *)
Record Desktop : Type := {
  (** [s.strip()] *)
  strip : string -> string;
  (** [Path(s).suffix], [Path(s).stem], [Path(s).name], [Path(s).exists()],
      [str(Path(s))] *)
  suffix : string -> string;
  stem : string -> string;
  name : string -> string;
  exists_ : string -> bool;
  as_str : string -> string;
  (** [str(Path.cwd() / n)] *)
  cwd_join : string -> string;
  (** [os.name == "nt"] *)
  nt : bool;
  (** [e.message] *)
  message : LuaInstallerException -> string;
  (** [analyze_dependencies(entry)], with the default bound of the analyzer *)
  analyze_dependencies : string -> Raised + list string;
  (** [compile_lua_script(entry, dependencies, output=..., verbose=...)] *)
  compile_lua_script :
    string -> list string -> option string -> bool -> Raised + string;
  (** [get_environment_status()], a dict in insertion order *)
  get_environment_status : list (string * bool)
}.

(** The variables and the widget states of [LuaInstallerGUI]. *)
Record Window : Type := {
  entry_script_var : string;
  output_path_var : string;
  status_var : string;
  is_building : bool;
  build_button_state : string;
  entry_script_entry_state : string
}.

(** What the application does to the outside, in order. *)
Inductive Effect : Type :=
  | ShowError (title text : string)
  | ShowInfo (title text : string)
  (** an exception raised inside a callback of the main loop: Tk reports
      it and the loop goes on *)
  | CallbackException (exception : string)
  | Analyzed (entry : string)
  | Compiled (entry : string) (dependencies : list string)
             (output : option string) (verbose : bool)
  | LoggedSuccess (source action text : string)
  | LoggedError (source action text : string).

(** The callbacks the worker hands to the main loop with
    [self.root.after(0, ...)]. *)
Inductive Callback : Type :=
  | SetStatus (text : string)
  | ShowSuccess (text : string)
  | ShowBuildFailed
  | ShowUnexpected
  | SetBuilding (building : bool).

Section WithDesktop.

Context (desk : Desktop).

Definition _set_status (w : Window) (text : string) : Window :=
  {| entry_script_var := entry_script_var w;
     output_path_var := output_path_var w;
     status_var := text;
     is_building := is_building w;
     build_button_state := build_button_state w;
     entry_script_entry_state := entry_script_entry_state w |}.

Definition _set_building (w : Window) (building : bool) : Window :=
  let state := if building then "disabled" else "normal" in
  {| entry_script_var := entry_script_var w;
     output_path_var := output_path_var w;
     status_var := status_var w;
     is_building := building;
     build_button_state := state;
     entry_script_entry_state := state |}.

Definition set_output_path (w : Window) (path : string) : Window :=
  {| entry_script_var := entry_script_var w;
     output_path_var := path;
     status_var := status_var w;
     is_building := is_building w;
     build_button_state := build_button_state w;
     entry_script_entry_state := entry_script_entry_state w |}.

(** The output path [_on_entry_changed] derives from the entry script. *)
Definition generated_output (entry_script_text : string) : string :=
  let entry_script := strip desk entry_script_text in
  if decide (entry_script = "") then ""
  else if decide (suffix desk entry_script = ".lua")
       then cwd_join desk
              (stem desk entry_script +:+ (if nt desk then ".exe" else ""))
       else "".

Definition _on_entry_changed (w : Window) : Window :=
  set_output_path w (generated_output (entry_script_var w)).

(** A write to [entry_script_var]; the trace installed by [__init__] runs
    [_on_entry_changed]. *)
Definition write_entry_script (w : Window) (text : string) : Window :=
  _on_entry_changed
    {| entry_script_var := text;
       output_path_var := output_path_var w;
       status_var := status_var w;
       is_building := is_building w;
       build_button_state := build_button_state w;
       entry_script_entry_state := entry_script_entry_state w |}.

(** [_browse_entry_script], given what the file dialog returned. *)
Definition _browse_entry_script (w : Window) (filepath : string) : Window :=
  if decide (filepath = "") then w else write_entry_script w filepath.

(** [_check_environment] *)
Definition missing_tools (status : list (string * bool)) : list string :=
  (filter (fun item => item.2 = false) status).*1.

Definition _check_environment (w : Window) : Window :=
  let status := get_environment_status desk in
  if forallb snd status then w
  else _set_status w ("Warning: Missing tools: "
                      +:+ String.concat ", " (missing_tools status)).

(** The window once [__init__] is done. *)
Definition initial : Window :=
  _check_environment
    {| entry_script_var := "";
       output_path_var := "";
       status_var := "Ready";
       is_building := false;
       build_button_state := "normal";
       entry_script_entry_state := "normal" |}.

(** [_validate_entry_script]: the dialogs shown, and the entry script the
    returned [Path] is made of. *)
Definition _validate_entry_script (w : Window) : list Effect * option string :=
  let entry_script := strip desk (entry_script_var w) in
  if decide (entry_script = "")
  then ([ShowError "Error" "Please select an entry script."], None)
  else if negb (exists_ desk entry_script)
  then ([ShowError "Error" ("Script not found:" +:+ newline +:+ entry_script)],
        None)
  else if negb (bool_decide (suffix desk entry_script = ".lua"))
  then ([ShowError "Error" "Entry script must be a .lua file."], None)
  else ([], Some entry_script).

(** The main-thread part of [_start_build]: the window, the dialogs, and
    the arguments of the worker when one is started. *)
Definition _start_build (w : Window)
  : Window * list Effect * option (string * string) :=
  match _validate_entry_script w with
  | (shown, None) => (w, shown, None)
  | (shown, Some entry_path) =>
      let output_path := strip desk (output_path_var w) in
      if decide (output_path = "")
      then (w, shown ++ [ShowError "Error" "Output path not generated."], None)
      else (_set_building (_set_status w "Building...") true, shown,
            Some (entry_path, output_path))
  end.

(** The two [except] clauses of [do_build]. *)
Definition handle (r : Raised) : list Effect * list Callback :=
  match r with
  | Installer e =>
      ([LoggedError "gui" "build" ("Failed: " +:+ message desk e)],
       [SetStatus "Build failed"; ShowBuildFailed])
  | Unexpected text =>
      ([LoggedError "gui" "build" ("Unexpected error: " +:+ text)],
       [SetStatus "Build failed"; ShowUnexpected])
  end.

(** The [try] block of [do_build] with its handlers. *)
Definition do_build_try (entry_path output_path : string)
  : list Effect * list Callback :=
  let entry := as_str desk entry_path in
  match analyze_dependencies desk entry with
  | inl r => let '(effects, callbacks) := handle r in
             (Analyzed entry :: effects, callbacks)
  | inr dependencies =>
      let called := [Analyzed entry;
                     Compiled entry dependencies (Some output_path) false] in
      match compile_lua_script desk entry dependencies (Some output_path) false with
      | inl r => let '(effects, callbacks) := handle r in
                 (called ++ effects, callbacks)
      | inr result_path =>
          (called ++ [LoggedSuccess "gui" "build"
                        ("Built " +:+ name desk entry_path +:+ " -> "
                         +:+ name desk result_path)],
           [SetStatus "Build successful";
            ShowSuccess ("Build successful!" +:+ newline +:+ newline
                         +:+ "Output:" +:+ newline +:+ result_path)])
      end
  end.

(** [do_build], the worker: its effects, and the callbacks it hands to the
    main loop; the [finally] clause comes last. *)
Definition do_build (entry_path output_path : string)
  : list Effect * list Callback :=
  let '(effects, callbacks) := do_build_try entry_path output_path in
  (effects, callbacks ++ [SetBuilding false]).

(** The main loop runs a callback.  The two callbacks of the [except]
    clauses are to show an error dialog with a text made from the
    exception variable [e]; when the main loop runs them the clause has
    ended and [e] is unbound, so evaluating the text raises [NameError]
    and no dialog is shown. *)
Definition run_callback (w : Window) (c : Callback) : Window * list Effect :=
  match c with
  | SetStatus text => (_set_status w text, [])
  | ShowSuccess text => (w, [ShowInfo "Success" text])
  | ShowBuildFailed => (w, [CallbackException "NameError"])
  | ShowUnexpected => (w, [CallbackException "NameError"])
  | SetBuilding building => (_set_building w building, [])
  end.

(** The main loop runs the callbacks in the order they were handed over. *)
Fixpoint run_callbacks (w : Window) (cs : list Callback) : Window * list Effect :=
  match cs with
  | [] => (w, [])
  | c :: rest =>
      let '(w1, shown1) := run_callback w c in
      let '(w2, shown2) := run_callbacks w1 rest in
      (w2, shown1 ++ shown2)
  end.

(** What every window the application can be in satisfies: the output
    path is the one derived from the entry script, and the two controls
    are disabled exactly while a build is running. *)
Definition consistent (w : Window) : Prop :=
  output_path_var w = generated_output (entry_script_var w)
  ∧ build_button_state w = (if is_building w then "disabled" else "normal")
  ∧ entry_script_entry_state w = build_button_state w.

(** The entry script of the window passes [_validate_entry_script]. *)
Definition valid_entry (w : Window) : Prop :=
  strip desk (entry_script_var w) ≠ ""
  ∧ exists_ desk (strip desk (entry_script_var w)) = true
  ∧ suffix desk (strip desk (entry_script_var w)) = ".lua".

(** The log entries among the effects. *)
Definition is_log (e : Effect) : bool :=
  match e with
  | LoggedSuccess _ _ _ | LoggedError _ _ _ => true
  | _ => false
  end.

(** What the user and the main loop can do to the window.  A click or a
    keystroke is taken whatever the state of the widget: the program,
    whose disabled button and entry field take none, goes through some
    of the windows reached here. *)
Inductive Action : Type :=
  | Type_ (text : string)
  | Browse (filepath : string)
  | ClickBuild
  | Run (c : Callback).

Definition act (w : Window) (a : Action) : Window :=
  match a with
  | Type_ text => write_entry_script w text
  | Browse filepath => _browse_entry_script w filepath
  | ClickBuild => (_start_build w).1.1
  | Run c => (run_callback w c).1
  end.

(** The windows the application can be in. *)
Definition reached (actions : list Action) : Window :=
  foldl act initial actions.

End WithDesktop.

(** The horizontal (or vertical) position [run_gui] gives the window on a
    screen of the given size: [(screen // 2) - (window // 2)]. *)
Definition centered (screen window : Z) : Z :=
  (screen `div` 2 - window `div` 2)%Z.

(** The geometry string of [run_gui]. *)
Definition geometry (screen_width screen_height : Z) : string :=
  pretty WINDOW_WIDTH +:+ "x" +:+ pretty WINDOW_HEIGHT
  +:+ "+" +:+ pretty (centered screen_width WINDOW_WIDTH)
  +:+ "+" +:+ pretty (centered screen_height WINDOW_HEIGHT).

(** A collaborator of the package, seen from the worker. *)
Definition installer_only {A} (r : LuaInstallerException + A) : Raised + A :=
  match r with
  | inl e => inl (Installer e)
  | inr a => inr a
  end.

End Gui.

(** ** The test runner ([test_luainstaller.py]) *)

Module TestSuite.

Fixpoint times (s : string) (n : nat) : string :=
  match n with
  | O => ""
  | S n' => s +:+ times s n'
  end.

Definition DIVIDER : string := times "=" 70.
Definition SECTION_DIVIDER : string := times "-" 50.

Definition newline : string := String (Ascii.ascii_of_nat 10) "".

(** [TestResult]: the counters and the details (name, status, message). *)
Record TestResult : Type := {
  passed : nat;
  failed : nat;
  skipped : nat;
  details : list (string * string * string)
}.

(** [TestResult()] *)
Definition fresh : TestResult :=
  {| passed := 0; failed := 0; skipped := 0; details := [] |}.

(** Each method gives the new state and the lines it prints. *)
Definition add_pass (r : TestResult) (name message : string)
  : TestResult * list string :=
  ({| passed := passed r + 1; failed := failed r; skipped := skipped r;
      details := details r ++ [(name, "PASS", message)] |},
   ("  ✓ " +:+ name)
     :: (if decide (message = "") then [] else ["    " +:+ message])).

Definition add_fail (r : TestResult) (name message : string)
  : TestResult * list string :=
  ({| passed := passed r; failed := failed r + 1; skipped := skipped r;
      details := details r ++ [(name, "FAIL", message)] |},
   ["  ✗ " +:+ name; "    Error: " +:+ message]).

Definition add_skip (r : TestResult) (name reason : string)
  : TestResult * list string :=
  ({| passed := passed r; failed := failed r; skipped := skipped r + 1;
      details := details r ++ [(name, "SKIP", reason)] |},
   ["  ○ " +:+ name +:+ " (skipped: " +:+ reason +:+ ")"]).

(** The lines [summary] prints for the failed tests. *)
Definition failed_lines (r : TestResult) : list string :=
  omap (fun d : string * string * string =>
          let '(name, status, message) := d in
          if decide (status = "FAIL")
          then Some ("  ✗ " +:+ name +:+ ": " +:+ message)
          else None)
       (details r).

(** [summary] *)
Definition summary (r : TestResult) : list string :=
  let total := passed r + failed r + skipped r in
  [newline +:+ DIVIDER; "TEST SUMMARY"; DIVIDER;
   "Total:   " +:+ pretty total;
   "Passed:  " +:+ pretty (passed r);
   "Failed:  " +:+ pretty (failed r);
   "Skipped: " +:+ pretty (skipped r)]
  ++ (if decide (0 < failed r)
      then [newline +:+ SECTION_DIVIDER; "FAILED TESTS:"] ++ failed_lines r
      else [])
  ++ [DIVIDER].

(** What the tests report, one call of a [TestResult] method each. *)
Inductive Report : Type :=
  | Pass (name message : string)
  | Fail (name message : string)
  | Skip (name reason : string).

Definition record (r : TestResult) (report : Report) : TestResult :=
  match report with
  | Pass name message => (add_pass r name message).1
  | Fail name message => (add_fail r name message).1
  | Skip name reason => (add_skip r name reason).1
  end.

(** The results once the tests have reported. *)
Definition results_of (reports : list Report) : TestResult :=
  foldl record fresh reports.

(** The value [run_all_tests] returns, the exit code of the script. *)
Definition exit_code (r : TestResult) : Z :=
  if decide (failed r = 0) then 0%Z else 1%Z.

Definition status_count (status : string) (r : TestResult) : nat :=
  length (filter (fun d : string * string * string => d.1.2 = status)
                 (details r)).

(** [_test_import]: the names the package must provide. *)
Definition required_attrs : list string :=
  ["__version__"; "get_logs"; "get_engines"; "analyze";
   "bundle_to_singlefile"; "build"].

(** The body of the loop over [required_attrs]; [attributes] are the
    names for which [hasattr(luainstaller, attr)] holds. *)
Definition check_attr (attributes : list string) (attr : string) : Report :=
  if bool_decide (attr ∈ attributes)
  then Pass ("Has attribute: " +:+ attr) ""
  else Fail ("Has attribute: " +:+ attr) "Attribute not found".

(** [_test_import], given what [import luainstaller] does: it raises an
    [ImportError] with this text, or gives a module with these attributes
    and this [__version__].  A module without [__version__] makes the
    first report raise an [AttributeError], which leaves the test. *)
Definition _test_import (imported : string + list string * string)
  : option (list Report) :=
  match imported with
  | inl text => Some [Fail "Import luainstaller" text]
  | inr (attributes, version) =>
      if bool_decide ("__version__" ∈ attributes)
      then Some (Pass "Import luainstaller" ("Version: " +:+ version)
                   :: (check_attr attributes <$> required_attrs))
      else None
  end.

(** The detail a report leaves in [details]. *)
Definition detail_of (report : Report) : string * string * string :=
  match report with
  | Pass name message => (name, "PASS", message)
  | Fail name message => (name, "FAIL", message)
  | Skip name reason => (name, "SKIP", reason)
  end.

(** The line [summary] prints for the report of a failure. *)
Definition failure_line (report : Report) : option string :=
  match report with
  | Fail name message => Some ("  ✗ " +:+ name +:+ ": " +:+ message)
  | _ => None
  end.

End TestSuite.

(** ** A desktop for the examples *)

Module GuiDemo.

(** A desktop on which [main.lua] of [main_util] can be built; one of
    the tools is missing. *)
Definition desktop : Gui.Desktop :=
  {| Gui.strip := fun s => s;
     Gui.suffix := fun s => if decide (s = "main.lua") then ".lua" else "";
     Gui.stem := fun s => if decide (s = "main.lua") then "main" else s;
     Gui.name := fun s => s;
     Gui.exists_ := Analyzer.is_script Demo.main_util;
     Gui.as_str := fun s => s;
     Gui.cwd_join := fun n => "/work/" +:+ n;
     Gui.nt := false;
     Gui.message := fun _ => "the build failed";
     Gui.analyze_dependencies :=
       fun p => Gui.installer_only (Analyzer.analyze_dependencies Demo.main_util p 36);
     Gui.compile_lua_script :=
       fun e d o v => Gui.installer_only (Demo.engine e d o v);
     Gui.get_environment_status := [("luastatic", true); ("gcc", false)] |}.

End GuiDemo.

(** * Properties of [build] *)

Ltac run_unfold :=
  cbv [trace_of outcome_of Api.build Api.analyze bind ret lift emit raise
       Api.call_analyze Api.call_compile Api.log_success fst snd].

Module ApiFacts.
Import Api.
Section WithHost.

Context (host : Host).

(** The loop with its set computes the appended requires of the
  interface description, as long as the set holds exactly the
  analyzed paths and the paths of the requires seen so far. *)
Lemma merge_requires_appended requires :
  ∀ dependencies (dependency_set : gset string) analyzed earlier,
    (∀ c, c ∈ dependency_set ↔ c ∈ analyzed ∨ c ∈ earlier) →
    Forall (on_disk host) requires →
    merge_requires host requires dependencies dependency_set
    = inr (dependencies ++ appended_requires host analyzed earlier requires).
Proof.
  induction requires as [|req rest IH]; intros deps dset analyzed earlier Hset Hdisk.
  - simpl. by rewrite app_nil_r.
  - apply Forall_cons in Hdisk as [Hreq Hrest]. unfold on_disk in Hreq.
    simpl. rewrite Hreq. simpl.
    destruct (decide (path_resolve host req ∈ dset)) as [Hin|Hnin].
    + rewrite bool_decide_eq_true_2 by (by apply Hset).
      simpl. apply IH; [|done].
      intros c. rewrite Hset, elem_of_app, list_elem_of_singleton.
      split; [tauto|]. intros [?|[?| ->]]; [tauto..|]. by apply Hset.
    + rewrite bool_decide_eq_false_2 by (by rewrite <- Hset).
      rewrite (IH _ ({[path_resolve host req]} ∪ dset) analyzed
                  (earlier ++ [path_resolve host req])); [| |done].
      * by rewrite <- app_assoc.
      * intros c. rewrite elem_of_union, elem_of_singleton, Hset,
          elem_of_app, list_elem_of_singleton. tauto.
Qed.

(** The loop raises at the first require that is not on disk. *)
Lemma merge_requires_missing requires :
  ∀ dependencies (dependency_set : gset string) req,
    first_missing host requires = Some req →
    merge_requires host requires dependencies dependency_set
    = inl (ScriptNotFoundError req).
Proof.
  unfold first_missing.
  induction requires as [|r rest IH]; intros deps dset req Hfirst; [done|].
  simpl. rewrite filter_cons in Hfirst.
  destruct (decide (path_exists host r = false)) as [Hr|Hr].
  - simpl in Hfirst. injection Hfirst as ->. by rewrite Hr.
  - apply not_false_is_true in Hr. rewrite Hr. simpl.
    destruct (decide _); by apply IH.
Qed.

Lemma first_missing_exists requires req :
  req ∈ requires → path_exists host req = false →
  ∃ req0, first_missing host requires = Some req0
          ∧ req0 ∈ requires ∧ path_exists host req0 = false.
Proof.
  intros Hin Hmiss. unfold first_missing.
  assert (Hf : req ∈ filter (λ r, path_exists host r = false) requires)
    by (by apply list_elem_of_filter).
  destruct (filter _ requires) as [|r0 l] eqn:Heq; [by apply elem_of_nil in Hf|].
  exists r0. split; [done|].
  assert (Hr0 : r0 ∈ filter (λ r, path_exists host r = false) requires)
    by (rewrite Heq; left).
  by apply list_elem_of_filter in Hr0 as [? ?].
Qed.

Lemma truthy_false_nil requires :
  truthy requires = false → default [] requires = [].
Proof. by destruct requires as [[|? ?]|]. Qed.

Lemma build_run_ok entry requires max_deps output manual analyzed deps :
  analysis_gave host entry max_deps manual analyzed →
  merged host requires analyzed = inr deps →
  build host entry requires max_deps output manual []
  = (analysis_events entry max_deps manual
       ++ packaging_events host entry deps output,
     compile_lua_script host entry deps output false).
Proof.
  unfold analysis_gave, merged, analysis_events, packaging_events, build_log.
  intros Hgave Hmerged. run_unfold.
  destruct manual; [subst analyzed|rewrite Hgave];
    (destruct (truthy requires);
     [rewrite Hmerged|injection Hmerged as <-]);
    simpl; by destruct (compile_lua_script _ _ _ _ _).
Qed.

Lemma build_run_merge_error entry requires max_deps output manual analyzed e :
  analysis_gave host entry max_deps manual analyzed →
  merged host requires analyzed = inl e →
  build host entry requires max_deps output manual []
  = (analysis_events entry max_deps manual, inl e).
Proof.
  unfold analysis_gave, merged, analysis_events.
  intros Hgave Hmerged. run_unfold.
  destruct manual; [subst analyzed|rewrite Hgave];
    (destruct (truthy requires); [by rewrite Hmerged|done]).
Qed.

Lemma build_run_analysis_error entry requires max_deps output e :
  analyze_dependencies host entry max_deps = inl e →
  build host entry requires max_deps output false []
  = ([EvAnalyze entry max_deps], inl e).
Proof. intros He. run_unfold. simpl. by rewrite He. Qed.

Lemma merged_appended requires analyzed :
  Forall (on_disk host) (default [] requires) →
  merged host requires analyzed
  = inr (analyzed ++ appended_requires host (path_resolve host <$> analyzed) []
                       (default [] requires)).
Proof.
  intros Hdisk. unfold merged. destruct (truthy requires) eqn:Htruthy.
  - apply merge_requires_appended; [|done].
    intros c. rewrite elem_of_list_to_set, elem_of_nil. tauto.
  - rewrite (truthy_false_nil _ Htruthy). simpl. by rewrite app_nil_r.
Qed.

Lemma merged_missing requires analyzed req :
  first_missing host (default [] requires) = Some req →
  merged host requires analyzed = inl (ScriptNotFoundError req).
Proof.
  intros Hfirst. unfold merged. destruct (truthy requires) eqn:Htruthy.
  - by apply merge_requires_missing.
  - by rewrite (truthy_false_nil _ Htruthy) in Hfirst.
Qed.

Lemma merge_requires_on_disk requires :
  ∀ dependencies (dependency_set : gset string) merged_list,
    merge_requires host requires dependencies dependency_set = inr merged_list →
    Forall (on_disk host) requires.
Proof.
  induction requires as [|req rest IH]; intros deps dset merged_list Hm; [done|].
  simpl in Hm. destruct (path_exists host req) eqn:Hreq; [|done]. simpl in Hm.
  apply Forall_cons. split; [done|].
  destruct (decide _); by eapply IH.
Qed.

Lemma merged_on_disk requires analyzed deps :
  merged host requires analyzed = inr deps →
  Forall (on_disk host) (default [] requires).
Proof.
  unfold merged. destruct (truthy requires) eqn:Htruthy.
  - apply merge_requires_on_disk.
  - intros _. by rewrite (truthy_false_nil _ Htruthy).
Qed.

Lemma packaging_compile entry deps output e d o v :
  EvCompile e d o v ∈ packaging_events host entry deps output →
  e = entry ∧ d = deps ∧ o = output ∧ v = false.
Proof.
  unfold packaging_events, build_log. intros Hin.
  apply elem_of_cons in Hin as [[= -> -> -> ->]|Hin]; [done|].
  destruct (compile_lua_script _ _ _ _ _);
    [by apply elem_of_nil in Hin|].
  apply elem_of_cons in Hin as [Hin|Hin]; [discriminate|].
  by apply elem_of_nil in Hin.
Qed.

(** No event of the packaging step is an analysis, and none of the
  analysis step is an engine call. *)
Lemma packaging_no_analysis entry deps output e m :
  EvAnalyze e m ∉ packaging_events host entry deps output.
Proof.
  unfold packaging_events, build_log. intros Hin.
  apply elem_of_cons in Hin as [Hin|Hin]; [discriminate|].
  destruct (compile_lua_script _ _ _ _ _);
    [by apply elem_of_nil in Hin|].
  apply elem_of_cons in Hin as [Hin|Hin]; [discriminate|].
  by apply elem_of_nil in Hin.
Qed.

Lemma analysis_no_compile entry max_deps manual e d o v :
  EvCompile e d o v ∉ analysis_events entry max_deps manual.
Proof.
  unfold analysis_events. intros Hin. destruct manual.
  - by apply elem_of_nil in Hin.
  - apply elem_of_cons in Hin as [Hin|Hin]; [discriminate|].
    by apply elem_of_nil in Hin.
Qed.

End WithHost.
End ApiFacts.

(** * Properties of the traversal *)

Module AnalyzerFacts.
Import Analyzer.

Lemma first_some_Some {A B} (f : A → option B) (l : list A) (y : B) :
  first_some f l = Some y → ∃ x, x ∈ l ∧ f x = Some y.
Proof.
  induction l as [|x l IH]; simpl; [done|].
  destruct (f x) as [y'|] eqn:Hfx.
  - intros [= ->]. exists x. split; [left|done].
  - intros (x' & Hin & Hx')%IH. exists x'. split; [by right|done].
Qed.

Lemma first_some_is_Some {A B} (f : A → option B) (l : list A) (x : A) :
  x ∈ l → is_Some (f x) → is_Some (first_some f l).
Proof.
  induction l as [|x' l IH]; intros Hin Hfx; [by apply elem_of_nil in Hin|].
  simpl. destruct (f x') as [y'|] eqn:Hfx'; [by eexists|].
  apply elem_of_cons in Hin as [->|Hin]; [|by apply IH].
  rewrite Hfx' in Hfx. by destruct Hfx.
Qed.

Lemma elem_of_predecessors g v y : y ∈ predecessors g v ↔ edge g y v.
Proof.
  unfold predecessors, edge. rewrite list_elem_of_fmap. split.
  - intros ([a b] & -> & [Hb Hin]%list_elem_of_filter). simpl in *. by subst.
  - intros Hin. exists (y, v). split; [done|]. by apply list_elem_of_filter.
Qed.

(** ** Walks *)

Lemma walk_last g l x y : walk g l x y → ∃ l0, l = l0 ++ [y].
Proof. destruct 1; [by exists []|by eexists]. Qed.

Lemma walk_first g l x y : walk g l x y → ∃ l1, l = x :: l1.
Proof.
  induction 1 as [x|l x y z _ [l1 ->] _]; [by exists []|].
  by exists (l1 ++ [z]).
Qed.

Lemma walk_rtc g l x y : walk g l x y → rtc (edge g) x y.
Proof. induction 1; [done|]. by eapply rtc_r. Qed.

Lemma rtc_walk g x y : rtc (edge g) x y → ∃ l, walk g l x y.
Proof.
  revert y. apply rtc_ind_r.
  - exists [x]. constructor.
  - intros y z _ Hyz [l IH]. exists (l ++ [z]). by econstructor.
Qed.

Lemma walk_elem_rtc g l x y z : walk g l x y → z ∈ l → rtc (edge g) z y.
Proof.
  induction 1 as [x|l x y z' Hw IH He]; intros Hin.
  - apply list_elem_of_singleton in Hin as ->. done.
  - apply elem_of_app in Hin as [Hin|Hin].
    + eapply rtc_r; [by apply IH|done].
    + apply list_elem_of_singleton in Hin as ->. done.
Qed.

Lemma walk_NoDup g l x y :
  (∀ v, ¬ tc (edge g) v v) → walk g l x y → NoDup l.
Proof.
  intros Hacyclic. induction 1 as [x|l x y z Hw IH He].
  - apply NoDup_singleton.
  - apply NoDup_app. split; [done|]. split; [|apply NoDup_singleton].
    intros v Hv ->%list_elem_of_singleton.
    apply (Hacyclic z). eapply tc_rtc_l; [by eapply walk_elem_rtc|].
    by apply tc_once.
Qed.

Lemma walk_within g l x y (N : list string) :
  (∀ a b, edge g a b → a ∈ N ∧ b ∈ N) → y ∈ N →
  walk g l x y → ∀ v, v ∈ l → v ∈ N.
Proof.
  intros Hclosed Hy Hw. induction Hw as [x|l x y z Hw IH He]; intros v Hv.
  - by apply list_elem_of_singleton in Hv as ->.
  - apply elem_of_app in Hv as [Hv|Hv].
    + apply IH; [|done]. by apply (Hclosed _ _ He).
    + by apply list_elem_of_singleton in Hv as ->.
Qed.

Lemma walk_length g l x y :
  (∀ v, ¬ tc (edge g) v v) →
  (∀ a b, edge g a b → a ∈ nodes g ∧ b ∈ nodes g) → y ∈ nodes g →
  walk g l x y → length l ≤ length (nodes g).
Proof.
  intros Hacyclic Hclosed Hy Hw.
  apply submseteq_length, NoDup_submseteq; [by eapply walk_NoDup|].
  by eapply walk_within.
Qed.

(** ** The ancestor search *)

Lemma ancestor_path_sound g fuel target :
  ∀ current l,
    ancestor_path g fuel target current = Some l → walk g l target current.
Proof.
  induction fuel as [|n IH]; intros current l; simpl;
    destruct (decide (current = target)) as [->|Hne];
    try (intros [= <-]; apply walk_here).
  intros Hsome. apply fmap_Some in Hsome as (l0 & Hfirst & ->).
  apply first_some_Some in Hfirst as (y & Hy & Hrec).
  econstructor; [by apply IH|]. by apply elem_of_predecessors.
Qed.

Lemma ancestor_path_complete g fuel target :
  ∀ current l,
    walk g l target current → length l ≤ S fuel →
    is_Some (ancestor_path g fuel target current).
Proof.
  induction fuel as [|n IH]; intros current l Hw Hlen; simpl;
    destruct (decide (current = target)) as [->|Hne]; try by eexists.
  - destruct Hw as [x|l x y z Hw He]; [done|].
    apply walk_last in Hw as [l0 ->].
    rewrite !length_app in Hlen. simpl in Hlen. lia.
  - destruct Hw as [x|l x y z Hw He]; [done|].
    apply fmap_is_Some. apply (first_some_is_Some _ _ y).
    + by apply elem_of_predecessors.
    + apply (IH _ l); [done|]. rewrite length_app in Hlen. simpl in Hlen. lia.
Qed.

(** ** Recording an edge *)

Lemma edge_add_edge g u p a b :
  edge (add_edge u p g) a b ↔ edge g a b ∨ (a = u ∧ b = p).
Proof.
  unfold edge, add_edge. simpl.
  rewrite elem_of_app, list_elem_of_singleton. split.
  - intros [?|[= -> ->]]; [by left|by right].
  - intros [?|[-> ->]]; [by left|by right].
Qed.

Lemma tc_add_edge g u p x y :
  tc (edge (add_edge u p g)) x y →
  tc (edge g) x y ∨ (rtc (edge g) x u ∧ rtc (edge g) p y).
Proof.
  induction 1 as [x y He|x y z He _ IH];
    apply edge_add_edge in He as [He|[-> ->]].
  - left. by apply tc_once.
  - right. done.
  - destruct IH as [IH|[IHu IHp]].
    + left. by eapply tc_l.
    + right. split; [by eapply rtc_l|done].
  - right. split; [done|]. destruct IH as [IH|[_ IHp]]; [by apply tc_rtc|done].
Qed.

Lemma acyclic_add_edge g u p :
  (∀ v, ¬ tc (edge g) v v) → ¬ rtc (edge g) p u →
  ∀ v, ¬ tc (edge (add_edge u p g)) v v.
Proof.
  intros Hacyclic Hno v [Htc|[Hvu Hpv]]%tc_add_edge; [by apply (Hacyclic v)|].
  apply Hno. by etrans.
Qed.

Section WithTree.

Context (tree : SourceTree) (root : string) (max_nodes : Z).

Abbreviation requires := (requires_edge tree root).
Abbreviation Good := (Good tree root max_nodes).
Abbreviation site_ok := (site_ok tree root).
Abbreviation sound_error := (sound_error tree root max_nodes).

Lemma chain_snoc l0 y z :
  chain tree root (l0 ++ [y]) → requires y z →
  chain tree root ((l0 ++ [y]) ++ [z]).
Proof.
  induction l0 as [|a l0 IH]; intros Hchain Hyz; simpl; [done|].
  destruct l0 as [|b l0]; simpl in *.
  - destruct Hchain as [Hay _]. done.
  - destruct Hchain as [Hab Hchain]. split; [done|]. by apply IH.
Qed.

Lemma walk_chain g l x y :
  (∀ a b, edge g a b → requires a b) → walk g l x y → chain tree root l.
Proof.
  intros Hsound. induction 1 as [x|l x y z Hw IH He]; [done|].
  destruct (walk_last _ _ _ _ Hw) as [l0 ->].
  apply chain_snoc; [done|]. by apply Hsound.
Qed.

(** No ancestor found means no recorded path. *)
Lemma ancestor_path_None g p u :
  Good g → u ∈ nodes g →
  ancestor_path g (length (nodes g)) p u = None → ¬ rtc (edge g) p u.
Proof.
  intros HG Hu Hnone [l Hw]%rtc_walk.
  assert (Hlen : length l ≤ S (length (nodes g))).
  { etrans; [eapply walk_length; [apply HG| |done|done]|lia].
    intros a b He. by apply (good_edges _ _ _ _ HG) in He as (_ & ? & ?). }
  destruct (ancestor_path_complete _ _ _ _ _ Hw Hlen) as [l' Hl'].
  congruence.
Qed.

(** An ancestor found closes a cycle of the require graph. *)
Lemma ancestor_path_cycle g p u l :
  Good g → u ∈ nodes g → requires u p →
  ancestor_path g (length (nodes g)) p u = Some l →
  is_cycle tree root (l ++ [p]).
Proof.
  intros HG Hu Hup Hw%ancestor_path_sound.
  assert (Hclosed : ∀ a b, edge g a b → a ∈ nodes g ∧ b ∈ nodes g).
  { intros a b He. by apply (good_edges _ _ _ _ HG) in He as (_ & ? & ?). }
  assert (Hsound : ∀ a b, edge g a b → requires a b).
  { intros a b He. by apply (good_edges _ _ _ _ HG) in He as (? & _ & _). }
  destruct (walk_first _ _ _ _ Hw) as [l1 ->].
  exists p, l1. split; [done|]. split.
  - destruct (walk_last _ _ _ _ Hw) as [l0 Hl0]. rewrite Hl0.
    apply chain_snoc; [|done]. rewrite <- Hl0. by eapply walk_chain.
  - intros v Hv. apply (good_reach _ _ _ _ HG).
    apply (walk_within _ _ _ _ _ Hclosed Hu Hw).
    apply elem_of_app in Hv as [Hv|Hv]; [done|].
    apply list_elem_of_singleton in Hv as ->. left.
Qed.

Lemma good_add_edge g u p :
  Good g → u ∈ nodes g → p ∈ nodes g → requires u p →
  ¬ rtc (edge g) p u → Good (add_edge u p g).
Proof.
  intros HG Hu Hp Hup Hno. destruct HG as [Hnd Hroot Hreach Hedges Hacyc Hsize].
  split; simpl; try done.
  - intros a b [He|[-> ->]]%edge_add_edge; [by apply Hedges|done].
  - by apply acyclic_add_edge.
Qed.

Lemma good_add_node g u p :
  Good g → u ∈ nodes g → p ∉ nodes g → requires u p →
  (Z.of_nat (length (nodes g)) ≤ max_nodes)%Z →
  Good (add_node p (add_edge u p g)).
Proof.
  intros HG Hu Hp Hup Hcount.
  destruct HG as [Hnd Hroot Hreach Hedges Hacyc Hsize].
  split; simpl.
  - apply NoDup_app. split; [done|]. split; [|apply NoDup_singleton].
    by intros v Hv ->%list_elem_of_singleton.
  - apply elem_of_app. by left.
  - intros v [Hv|Hv]%elem_of_app; [by apply Hreach|].
    apply list_elem_of_singleton in Hv as ->.
    eapply rtc_r; [by apply Hreach|done].
  - intros a b [He|[-> ->]]%edge_add_edge.
    + destruct (Hedges _ _ He) as (? & ? & ?).
      rewrite !elem_of_app. tauto.
    + rewrite !elem_of_app, !list_elem_of_singleton. auto.
  - apply (acyclic_add_edge g u p); [done|].
    intros [->|(y & He & _)]%rtc_inv; [done|].
    by apply Hedges in He as (_ & ? & _).
  - rewrite length_app. simpl. lia.
Qed.

Abbreviation step_post := (step_post tree root max_nodes).
Abbreviation traverse_post := (traverse_post tree root max_nodes).

Lemma site_ok_mono g g' u s :
  (∀ a b, edge g a b → edge g' a b) → site_ok g u s → site_ok g' u s.
Proof. intros Hmono (Hlit & v & Hres & He). split; [done|]. eauto. Qed.

(** ** One site *)

Lemma process_site_spec u g q s :
  Good g → u ∈ nodes g → s ∈ scan tree u →
  step_post u g q [s] (process_site tree root max_nodes u (g, q) s).
Proof.
  intros HG Hu Hs. pose proof (good_reach _ _ _ _ HG u Hu) as Hreach.
  unfold process_site.
  destruct (site_is_literal s) eqn:Hlit; simpl; [|by eauto 10].
  destruct (resolve tree root (site_argument s)) as [p|p|searched] eqn:Hres;
    simpl; [|by eauto 10..].
  assert (Hup : requires u p) by (by exists s).
  destruct (ancestor_path g (length (nodes g)) p u) as [l|] eqn:Hanc; simpl.
  { by eapply ancestor_path_cycle. }
  pose proof (ancestor_path_None _ _ _ HG Hu Hanc) as Hno.
  destruct (decide (p ∈ nodes g)) as [Hp|Hp].
  { split; [by apply good_add_edge|]. split; [|split].
    - apply Forall_singleton. split; [done|]. exists p. split; [done|].
      apply edge_add_edge. by right.
    - intros a b He. apply edge_add_edge. by left.
    - exists []. by rewrite !app_nil_r. }
  destruct (decide (max_nodes < Z.of_nat (length (nodes g)))%Z)
    as [Hover|Hfits]; simpl.
  { split; [done|]. exists (nodes g ++ [p]). split; [|split].
    - apply NoDup_app. split; [apply HG|]. split; [|apply NoDup_singleton].
      by intros v Hv ->%list_elem_of_singleton.
    - intros v [Hv|Hv]%elem_of_app; [by apply (good_reach _ _ _ _ HG)|].
      apply list_elem_of_singleton in Hv as ->. by eapply rtc_r.
    - rewrite length_app. simpl. lia. }
  split; [apply good_add_node; [done..|lia]|]. split; [|split].
  - apply Forall_singleton. split; [done|]. exists p. split; [done|].
    apply (edge_add_edge g u p u p). by right.
  - intros a b He. apply (edge_add_edge g u p a b). by left.
  - by exists [p].
Qed.

(** ** The sites of one unit *)

Local Arguments process_site : simpl never.

Lemma visit_sites_spec u sites :
  ∀ g q,
    Good g → u ∈ nodes g → (∀ s, s ∈ sites → s ∈ scan tree u) →
    step_post u g q sites (visit_sites tree root max_nodes u sites (g, q)).
Proof.
  induction sites as [|s rest IH]; intros g q HG Hu Hsub; simpl.
  { split; [done|]. split; [done|]. split; [done|].
    exists []. by rewrite !app_nil_r. }
  pose proof (process_site_spec u g q s HG Hu (Hsub s (list_elem_of_here _ _))) as Hstep.
  destruct (process_site tree root max_nodes u (g, q) s)
    as [e|[g1 q1]]; [done|].
  destruct Hstep as (HG1 & Hs & Hmono1 & new1 & Hn1 & ->).
  rewrite Forall_singleton in Hs.
  assert (Hu1 : u ∈ nodes g1) by (rewrite Hn1, elem_of_app; by left).
  pose proof (IH g1 (q ++ new1) HG1 Hu1
                (fun s' Hs' => Hsub s' (list_elem_of_further _ _ _ Hs'))) as Hrest.
  destruct (visit_sites tree root max_nodes u rest (g1, q ++ new1))
    as [e|[g2 q2]]; [done|].
  destruct Hrest as (HG2 & Hok & Hmono2 & new2 & Hn2 & ->).
  split; [done|]. split; [|split].
  - apply Forall_cons. split; [by apply (site_ok_mono g1 g2)|done].
  - eauto.
  - exists (new1 ++ new2). by rewrite Hn2, Hn1, !app_assoc.
Qed.

(** ** The loop *)

(** The loop always ends within [1 + max_nodes] dequeues, and its
    result says what [traverse_post] says. *)
Lemma traverse_spec fuel :
  ∀ g queue visited,
    Good g → nodes g = visited ++ queue →
    (∀ x, x ∈ visited → Forall (site_ok g x) (scan tree x)) →
    S (Z.to_nat max_nodes) ≤ length visited + fuel →
    ∃ r, traverse tree root max_nodes fuel g queue = Some r
         ∧ traverse_post g r.
Proof.
  induction fuel as [|n IH]; intros g queue visited HG Hnodes Hdone Hfuel.
  - destruct queue as [|u rest].
    + exists (inr g). split; [done|]. split; [done|]. split.
      * intros x Hx. apply Hdone. by rewrite Hnodes, app_nil_r in Hx.
      * exists []. by rewrite app_nil_r.
    + pose proof (good_size _ _ _ _ HG) as Hsize.
      rewrite Hnodes, length_app in Hsize. simpl in Hsize. lia.
  - destruct queue as [|u rest].
    + exists (inr g). split; [done|]. split; [done|]. split.
      * intros x Hx. apply Hdone. by rewrite Hnodes, app_nil_r in Hx.
      * exists []. by rewrite app_nil_r.
    + simpl.
      assert (Hu : u ∈ nodes g).
      { rewrite Hnodes, elem_of_app, elem_of_cons. auto. }
      pose proof (visit_sites_spec u (scan tree u) g rest HG Hu
                    (fun s Hs => Hs)) as Hvisit.
      destruct (visit_sites tree root max_nodes u (scan tree u) (g, rest))
        as [e|[g' q']]; [by exists (inl e)|].
      destruct Hvisit as (HG' & Hok & Hmono & new & Hn & ->).
      destruct (IH g' (rest ++ new) (visited ++ [u]) HG') as (r & Hr & Hpost).
      * by rewrite Hn, Hnodes, <- !app_assoc.
      * intros x [Hx|Hx]%elem_of_app.
        -- eapply Forall_impl; [by apply Hdone|].
           intros s. by apply site_ok_mono.
        -- by apply list_elem_of_singleton in Hx as ->.
      * rewrite length_app. simpl. lia.
      * exists r. split; [done|].
        destruct r as [e|g'']; [done|].
        destruct Hpost as (HG'' & Hall & more & Hmore).
        split; [done|]. split; [done|].
        exists (new ++ more). by rewrite Hmore, Hn, app_assoc.
Qed.

(** ** What a finished traversal knows *)

Lemma recorded_requires g x v :
  Forall (site_ok g x) (scan tree x) → requires x v → edge g x v.
Proof.
  intros Hall (s & Hs & _ & Hres).
  rewrite Forall_forall in Hall.
  destruct (Hall s Hs) as (_ & v' & Hres' & He). congruence.
Qed.

Lemma finished_closed g :
  Good g → (∀ x, x ∈ nodes g → Forall (site_ok g x) (scan tree x)) →
  ∀ v, reachable tree root v → v ∈ nodes g.
Proof.
  intros HG Hall. apply rtc_ind_r; [apply HG|].
  intros y z _ Hyz Hy.
  pose proof (recorded_requires g y z (Hall y Hy) Hyz) as He.
  by apply (good_edges _ _ _ _ HG) in He as (_ & _ & ?).
Qed.

Lemma finished_followable g :
  Good g → (∀ x, x ∈ nodes g → Forall (site_ok g x) (scan tree x)) →
  all_followable tree root.
Proof.
  intros HG Hall u s Hu Hs.
  pose proof (Hall u (finished_closed g HG Hall u Hu)) as Hsites.
  rewrite Forall_forall in Hsites.
  destruct (Hsites s Hs) as (Hlit & v & Hres & _). split; eauto.
Qed.

Lemma finished_acyclic g :
  Good g → (∀ x, x ∈ nodes g → Forall (site_ok g x) (scan tree x)) →
  acyclic tree root.
Proof.
  intros HG Hall u Hu Hloop.
  assert (Hrec : ∀ x y, tc requires x y → x ∈ nodes g → tc (edge g) x y).
  { induction 1 as [x y Hxy|x y z Hxy _ IH]; intros Hx.
    - apply tc_once. by apply recorded_requires; [apply Hall|].
    - pose proof (recorded_requires g x y (Hall x Hx) Hxy) as He.
      eapply tc_l; [done|]. apply IH.
      by apply (good_edges _ _ _ _ HG) in He as (_ & _ & ?). }
  apply (good_acyclic _ _ _ _ HG u), Hrec; [done|].
  by apply (finished_closed g HG Hall).
Qed.

Lemma chain_tc l :
  ∀ x y, chain tree root (x :: l ++ [y]) → tc requires x y.
Proof.
  induction l as [|z l IH]; intros x y; simpl.
  - intros [Hxy _]. by apply tc_once.
  - intros [Hxz Hrest]. eapply tc_l; [done|]. by apply IH.
Qed.

Lemma cycle_not_acyclic c : is_cycle tree root c → ¬ acyclic tree root.
Proof.
  intros (p & mid & -> & Hchain & Hreach) Hacyclic.
  apply (Hacyclic p); [apply Hreach; left|]. by apply chain_tc in Hchain.
Qed.

End WithTree.

(** ** The analyzer *)

Lemma good_initial tree root max_nodes :
  Good tree root max_nodes {| nodes := [root]; edges := [] |}.
Proof.
  split; simpl.
  - apply NoDup_singleton.
  - left.
  - intros v ->%list_elem_of_singleton. apply rtc_refl.
  - intros a b He. by apply elem_of_nil in He.
  - intros x Hx.
    destruct Hx as [x y He|x y z He _]; by apply elem_of_nil in He.
  - lia.
Qed.

(** The analyzer always answers, and its answer is sound. *)
Lemma analyze_dependencies_run_sound tree entry max_dependencies :
  ∃ r, analyze_dependencies_run tree entry max_dependencies = Some r
       ∧ analysis_sound tree entry max_dependencies r.
Proof.
  unfold analyze_dependencies_run, analysis_sound.
  destruct (is_script tree entry) eqn:Hscript; cbn [negb]; [|by eexists].
  set (root := canonical tree entry).
  destruct (traverse_spec tree root max_dependencies
              (S (Z.to_nat max_dependencies))
              {| nodes := [root]; edges := [] |} [root] [])
    as (r & -> & Hpost); [apply good_initial|done| |simpl; lia|].
  { intros x Hx. by apply elem_of_nil in Hx. }
  destruct r as [e|g].
  - exists (inl e). split; [done|]. simpl in Hpost. by destruct e.
  - destruct Hpost as (HG & Hall & more & Hmore). simpl in Hmore.
    exists (inr (tail (nodes g))). split; [done|].
    assert (Hnodes : root :: tail (nodes g) = nodes g) by (by rewrite Hmore).
    rewrite !Hnodes.
    split; [done|]. split; [apply HG|]. split; [|split; [|split]].
    + intros v. split; [apply HG|].
      apply (finished_closed tree root max_dependencies g HG Hall).
    + apply (finished_followable tree root max_dependencies g HG Hall).
    + apply (finished_acyclic tree root max_dependencies g HG Hall).
    + pose proof (good_size _ _ _ _ HG) as Hsize.
      rewrite <- Hnodes in Hsize. simpl in Hsize. lia.
Qed.

Lemma analyze_dependencies_sound tree entry max_dependencies :
  analysis_sound tree entry max_dependencies
    (analyze_dependencies tree entry max_dependencies).
Proof.
  unfold analyze_dependencies.
  by destruct (analyze_dependencies_run_sound tree entry max_dependencies)
    as (r & -> & Hr).
Qed.

(** ** What the answer is, from what the sources are *)

Section Outcomes.

Context (tree : SourceTree) (entry : string) (max_dependencies : Z).

Abbreviation root := (canonical tree entry).
Abbreviation answer := (analyze_dependencies tree entry max_dependencies).

Lemma found_within_universe (found universe : list string) :
  NoDup found → (∀ v, v ∈ found → v ∈ universe) →
  length found ≤ length universe.
Proof. intros Hnd Hsub. by apply submseteq_length, NoDup_submseteq. Qed.

Lemma reachable_root_or_dependency deps v :
  dependencies_are tree root deps → reachable tree root v →
  v ∈ root :: deps.
Proof.
  intros [_ Hdeps] [<-|Htc]%rtc_tc; [left|right]. by apply Hdeps.
Qed.

Lemma dependencies_within_limit deps :
  dependencies_are tree root deps →
  (Z.of_nat (length deps) ≤ max_dependencies)%Z →
  within_limit tree root max_dependencies.
Proof.
  intros Hdeps Hfits. exists (root :: deps). split.
  - intros v. by apply reachable_root_or_dependency.
  - simpl. lia.
Qed.

Lemma within_bound_limit :
  within_bound tree root max_dependencies →
  within_limit tree root max_dependencies.
Proof.
  intros (universe & Hall & Hsize). exists universe. split; [done|]. lia.
Qed.

(** The errors that a followable, acyclic, bounded tree excludes. *)
Lemma no_limit_error lim cnt name :
  within_limit tree root max_dependencies →
  ¬ sound_error tree root max_dependencies
      (DependencyLimitExceededError lim cnt name).
Proof.
  intros (universe & Hall & Hsize) (_ & found & Hnd & Hreach & Hover).
  pose proof (found_within_universe found universe Hnd
                (fun v Hv => Hall v (Hreach v Hv))). lia.
Qed.

Lemma no_cycle_error c :
  acyclic tree root →
  ¬ sound_error tree root max_dependencies (CircularDependencyError c).
Proof. intros Hacyclic Hc. by eapply cycle_not_acyclic. Qed.

Lemma no_dynamic_error f ln raw :
  all_followable tree root →
  ¬ sound_error tree root max_dependencies (DynamicRequireError f ln raw).
Proof.
  intros Hall (Hf & s & Hs & Hlit & _). destruct (Hall f s Hf Hs). congruence.
Qed.

Lemma no_missing_error f name searched :
  all_resolvable tree root →
  ¬ sound_error tree root max_dependencies
      (ModuleNotFoundError f name searched).
Proof.
  intros Hall (Hf & s & Hs & Hlit & <- & Hres).
  destruct (Hall f s Hf Hs Hlit). congruence.
Qed.

Lemma no_native_error f name p :
  all_resolvable tree root →
  ¬ sound_error tree root max_dependencies
      (CModuleNotSupportedError f name p).
Proof.
  intros Hall (Hf & s & Hs & Hlit & <- & Hres).
  destruct (Hall f s Hf Hs Hlit). congruence.
Qed.

Lemma followable_resolvable :
  all_followable tree root → all_resolvable tree root.
Proof. intros Hall u s Hu Hs _. by destruct (Hall u s Hu Hs). Qed.

(** The answer of a successful analysis lists the dependencies. *)
Lemma answer_lists_dependencies result deps :
  analysis_sound tree entry max_dependencies (inr result) →
  dependencies_are tree root deps → result ≡ₚ deps.
Proof.
  intros (_ & Hnd & Hmem & _ & Hacyclic & _) [Hnd' Hdeps].
  apply NoDup_cons in Hnd as [Hroot Hnd].
  apply NoDup_Permutation; [done..|]. intros v. split.
  - intros Hv.
    assert (reachable tree root v) as [Heq|Htc]%rtc_tc
      by (apply Hmem; by right); [by subst v|by apply Hdeps].
  - intros Htc%Hdeps.
    assert (Hv : v ∈ root :: result) by (by apply Hmem, tc_rtc).
    apply elem_of_cons in Hv as [->|Hv]; [|done].
    destruct (Hacyclic root); [apply rtc_refl|done].
Qed.

(** A followable, acyclic tree within the bound is analyzed. *)
Lemma answer_within_bound deps :
  is_script tree entry = true →
  all_followable tree root → acyclic tree root →
  dependencies_are tree root deps →
  (Z.of_nat (length deps) ≤ max_dependencies)%Z →
  ∃ result, answer = inr result ∧ result ≡ₚ deps ∧ NoDup result.
Proof.
  intros Hscript Hfollow Hacyclic Hdeps Hfits.
  pose proof (analyze_dependencies_sound tree entry max_dependencies) as Hsound.
  pose proof (dependencies_within_limit deps Hdeps Hfits) as Hbound.
  destruct answer as [e|result].
  - destruct e as [p|c|f ln raw|lim cnt name|f name searched|f name mp| | |rc err|out];
      simpl in Hsound; destruct Hsound as [Hs He];
      try congruence; try done.
    + by destruct (no_cycle_error c Hacyclic).
    + by destruct (no_dynamic_error f ln raw Hfollow).
    + by destruct (no_limit_error lim cnt name Hbound).
    + by destruct (no_missing_error f name searched
                     (followable_resolvable Hfollow)).
    + by destruct (no_native_error f name mp
                     (followable_resolvable Hfollow)).
  - exists result. split; [done|]. split.
    + by apply answer_lists_dependencies.
    + destruct Hsound as (_ & Hnd & _). by apply NoDup_cons in Hnd as [_ ?].
Qed.

(** A followable, acyclic tree beyond the bound is refused. *)
Lemma answer_beyond_bound deps :
  is_script tree entry = true →
  all_followable tree root → acyclic tree root →
  dependencies_are tree root deps →
  (0 ≤ max_dependencies < Z.of_nat (length deps))%Z →
  ∃ count name,
    answer = inl (DependencyLimitExceededError max_dependencies count name).
Proof.
  intros Hscript Hfollow Hacyclic Hdeps Hover.
  pose proof (analyze_dependencies_sound tree entry max_dependencies) as Hsound.
  destruct answer as [e|result].
  - destruct e as [p|c|f ln raw|lim cnt name|f name searched|f name mp| | |rc err|out];
      simpl in Hsound; destruct Hsound as [Hs He];
      try congruence; try done.
    + by destruct (no_cycle_error c Hacyclic).
    + by destruct (no_dynamic_error f ln raw Hfollow).
    + destruct He as [-> _]. by eexists _, _.
    + by destruct (no_missing_error f name searched
                     (followable_resolvable Hfollow)).
    + by destruct (no_native_error f name mp
                     (followable_resolvable Hfollow)).
  - exfalso.
    pose proof (answer_lists_dependencies result deps Hsound Hdeps) as Hperm.
    destruct Hsound as (_ & _ & _ & _ & _ & Hsize).
    apply Permutation_length in Hperm. lia.
Qed.

(** A followable tree within the bound that has a cycle is refused
    with a cycle of the require graph. *)
Lemma answer_cycle :
  is_script tree entry = true →
  all_followable tree root → within_bound tree root max_dependencies →
  ¬ acyclic tree root →
  ∃ cycle, answer = inl (CircularDependencyError cycle)
           ∧ is_cycle tree root cycle.
Proof.
  intros Hscript Hfollow Hbound%within_bound_limit Hcyclic.
  pose proof (analyze_dependencies_sound tree entry max_dependencies) as Hsound.
  destruct answer as [e|result].
  - destruct e as [p|c|f ln raw|lim cnt name|f name searched|f name mp| | |rc err|out];
      simpl in Hsound; destruct Hsound as [Hs He];
      try congruence; try done.
    + by eexists.
    + by destruct (no_dynamic_error f ln raw Hfollow).
    + by destruct (no_limit_error lim cnt name Hbound).
    + by destruct (no_missing_error f name searched
                     (followable_resolvable Hfollow)).
    + by destruct (no_native_error f name mp
                     (followable_resolvable Hfollow)).
  - by destruct Hsound as (_ & _ & _ & _ & Hacyclic & _).
Qed.

(** A resolvable, acyclic tree whose dependencies fit the bound and in
    which some reachable unit has a non-literal require is refused with
    such a require. *)
Lemma answer_dynamic file site :
  is_script tree entry = true →
  all_resolvable tree root → acyclic tree root →
  within_limit tree root max_dependencies →
  reachable tree root file → site ∈ scan tree file →
  site_is_literal site = false →
  ∃ f s, answer = inl (DynamicRequireError f (site_line s) (site_argument s))
         ∧ reachable tree root f ∧ s ∈ scan tree f
         ∧ site_is_literal s = false.
Proof.
  intros Hscript Hres Hacyclic Hbound Hfile Hsite Hdyn.
  pose proof (analyze_dependencies_sound tree entry max_dependencies) as Hsound.
  destruct answer as [e|result].
  - destruct e as [p|c|f ln raw|lim cnt name|f name searched|f name mp| | |rc err|out];
      simpl in Hsound; destruct Hsound as [Hs He];
      try congruence; try done.
    + by destruct (no_cycle_error c Hacyclic).
    + destruct He as (Hf & s & Hin & Hlit & <- & <-). by exists f, s.
    + by destruct (no_limit_error lim cnt name Hbound).
    + by destruct (no_missing_error f name searched Hres).
    + by destruct (no_native_error f name mp Hres).
  - destruct Hsound as (_ & _ & _ & Hfollow & _).
    destruct (Hfollow file site Hfile Hsite). congruence.
Qed.

End Outcomes.

(** The bound is checked before a node is inserted: no site leaves the
    graph with more dependencies than the bound allows (the nodes are
    the entry and the dependencies). *)
Lemma process_site_count tree root max_nodes u g q s g' q' :
  process_site tree root max_nodes u (g, q) s = inr (g', q') →
  (Z.of_nat (length (nodes g)) ≤ 1 + max_nodes)%Z →
  (Z.of_nat (length (nodes g')) ≤ 1 + max_nodes)%Z.
Proof.
  unfold process_site. intros Hstep Hsize.
  destruct (site_is_literal s); simpl in Hstep; [|done].
  destruct (resolve tree root (site_argument s)) as [p|p|searched]; [|done..].
  destruct (ancestor_path g (length (nodes g)) p u); [done|].
  destruct (decide (p ∈ nodes g)); [by injection Hstep as <- _|].
  destruct (decide (max_nodes < Z.of_nat (length (nodes g)))%Z); [done|].
  injection Hstep as <- _. simpl. rewrite length_app. simpl. lia.
Qed.

End AnalyzerFacts.

(** * Properties of the checks *)

Module ChecksFacts.
Import Analyzer Checks.

Lemma forallb_elem {A} (f : A → bool) (l : list A) :
  forallb f l = true → ∀ x, x ∈ l → f x = true.
Proof.
  rewrite List.forallb_forall. intros H x Hx. apply H.
  by apply list_elem_of_In.
Qed.

Lemma existsb_elem {A} (f : A → bool) (l : list A) :
  existsb f l = true → ∃ x, x ∈ l ∧ f x = true.
Proof.
  rewrite List.existsb_exists. intros (x & Hx & Hf). exists x.
  split; [by apply list_elem_of_In|done].
Qed.

Section WithTree.

Context (tree : SourceTree) (root : string).

Abbreviation requires := (requires_edge tree root).

Lemma target_Some s v :
  target tree root s = Some v ↔
  site_is_literal s = true
  ∧ resolve tree root (site_argument s) = ScriptFile v.
Proof.
  unfold target. destruct (site_is_literal s).
  - destruct (resolve tree root (site_argument s)); split;
      try (intros [_ [= ->]]); try (intros [= ->]); done.
  - split; [done|]. by intros [? _].
Qed.

Lemma requires_targets u v : requires u v ↔ v ∈ targets tree root u.
Proof.
  unfold targets, requires_edge. rewrite list_elem_of_omap. split.
  - intros (s & Hs & Hlit & Hres). exists s. split; [done|].
    by apply target_Some.
  - intros (s & Hs & (Hlit & Hres)%target_Some). by exists s.
Qed.

Lemma closed_in_spec within universe :
  closed_in tree root within universe = true →
  ∀ u v, u ∈ universe → requires u v → v ∈ within.
Proof.
  intros Hclosed u v Hu Huv%requires_targets.
  pose proof (forallb_elem _ _ Hclosed u Hu) as Hu'. simpl in Hu'.
  pose proof (forallb_elem _ _ Hu' v Huv) as Hv. simpl in Hv.
  by apply bool_decide_eq_true_1 in Hv.
Qed.

Lemma closed_reachable universe :
  root ∈ universe → closed_in tree root universe universe = true →
  ∀ v, reachable tree root v → v ∈ universe.
Proof.
  intros Hroot Hclosed. apply rtc_ind_r; [done|].
  intros y z _ Hyz Hy. by eapply closed_in_spec.
Qed.

Lemma closed_within_bound universe max_dependencies :
  root ∈ universe → closed_in tree root universe universe = true →
  (Z.of_nat (length universe) ≤ max_dependencies)%Z →
  within_bound tree root max_dependencies.
Proof.
  intros Hroot Hclosed Hsize. exists universe. split; [|done].
  by apply closed_reachable.
Qed.

Lemma followable_spec universe :
  root ∈ universe → closed_in tree root universe universe = true →
  followable tree root universe = true → all_followable tree root.
Proof.
  intros Hroot Hclosed Hall u s Hu Hs.
  apply (closed_reachable universe Hroot Hclosed) in Hu.
  pose proof (forallb_elem _ _ Hall u Hu) as Hu'. simpl in Hu'.
  pose proof (forallb_elem _ _ Hu' s Hs) as Hs'. simpl in Hs'.
  apply bool_decide_eq_true_1 in Hs' as [v Hv]. apply target_Some in Hv.
  split; [tauto|]. exists v. tauto.
Qed.

Lemma resolvable_spec universe :
  root ∈ universe → closed_in tree root universe universe = true →
  resolvable tree root universe = true → all_resolvable tree root.
Proof.
  intros Hroot Hclosed Hall u s Hu Hs Hlit.
  apply (closed_reachable universe Hroot Hclosed) in Hu.
  pose proof (forallb_elem _ _ Hall u Hu) as Hu'. simpl in Hu'.
  pose proof (forallb_elem _ _ Hu' s Hs) as Hs'. simpl in Hs'.
  rewrite Hlit in Hs'. simpl in Hs'.
  apply bool_decide_eq_true_1 in Hs' as [v Hv]. apply target_Some in Hv.
  exists v. tauto.
Qed.

Lemma ranked_spec rank universe :
  root ∈ universe → closed_in tree root universe universe = true →
  ranked tree root rank universe = true → acyclic tree root.
Proof.
  intros Hroot Hclosed Hrank.
  assert (Hstep : ∀ u v, u ∈ universe → requires u v → rank v < rank u).
  { intros u v Hu Huv%requires_targets.
    pose proof (forallb_elem _ _ Hrank u Hu) as Hu'. simpl in Hu'.
    pose proof (forallb_elem _ _ Hu' v Huv) as Hv. simpl in Hv.
    by apply bool_decide_eq_true_1 in Hv. }
  assert (Hdown : ∀ x y, tc requires x y → x ∈ universe → rank y < rank x).
  { induction 1 as [x y Hxy|x y z Hxy _ IH]; intros Hx; [by apply Hstep|].
    etrans; [apply IH; by eapply closed_in_spec|by apply Hstep]. }
  intros u Hu Hloop.
  apply (closed_reachable universe Hroot Hclosed) in Hu.
  apply Hdown in Hloop; [lia|done].
Qed.

Lemma derivable_spec deps :
  ∀ seen,
    (∀ u, u ∈ seen → rtc requires root u) →
    derivable tree root seen deps = true →
    ∀ v, v ∈ deps → tc requires root v.
Proof.
  induction deps as [|d rest IH]; intros seen Hseen Hder v Hv;
    [by apply elem_of_nil in Hv|].
  simpl in Hder. apply andb_true_iff in Hder as [Hd Hrest].
  apply existsb_elem in Hd as (u & Hu & Hd).
  apply bool_decide_eq_true_1, requires_targets in Hd.
  assert (Htc : tc requires root d).
  { eapply tc_rtc_l; [by apply Hseen|by apply tc_once]. }
  apply elem_of_cons in Hv as [->|Hv]; [done|].
  apply (IH (seen ++ [d])); [|done..].
  intros u' [Hu'|Hu']%elem_of_app; [by apply Hseen|].
  apply list_elem_of_singleton in Hu' as ->. by apply tc_rtc.
Qed.

Lemma dependencies_spec deps :
  NoDup deps →
  derivable tree root [root] deps = true →
  closed_in tree root deps (root :: deps) = true →
  dependencies_are tree root deps.
Proof.
  intros Hnd Hder Hclosed. split; [done|]. intros v. split.
  - apply (derivable_spec deps [root]); [|done].
    intros u ->%list_elem_of_singleton. apply rtc_refl.
  - assert (Hin : ∀ x y, tc requires x y → x ∈ root :: deps → y ∈ deps).
    { induction 1 as [x y Hxy|x y z Hxy _ IH]; intros Hx.
      - by eapply closed_in_spec.
      - apply IH. right. by eapply closed_in_spec. }
    intros Htc. apply (Hin root v Htc). left.
Qed.

(** When two units require each other and nothing else, every cycle
    goes through both. *)
Lemma cycle_through_both A B :
  targets tree root A = [B] → targets tree root B = [A] →
  (∀ v, reachable tree root v → v = A ∨ v = B) →
  ∀ c, is_cycle tree root c → A ∈ c ∧ B ∈ c.
Proof.
  intros HA HB Honly c (p & mid & -> & Hchain & Hreach).
  assert (Hnext : ∀ x y, x = A ∨ x = B → requires x y →
                         (x = A ∧ y = B) ∨ (x = B ∧ y = A)).
  { intros x y [-> | ->] Hxy%requires_targets.
    - rewrite HA in Hxy. apply list_elem_of_singleton in Hxy. by left.
    - rewrite HB in Hxy. apply list_elem_of_singleton in Hxy. by right. }
  assert (Hp : p = A ∨ p = B) by (apply Honly, Hreach; left).
  assert (Hsecond : ∃ y rest, p :: mid ++ [p] = p :: y :: rest ∧ requires p y).
  { destruct mid as [|y mid]; simpl in *.
    - exists p, []. by destruct Hchain.
    - exists y, (mid ++ [p]). by destruct Hchain. }
  destruct Hsecond as (y & rest & -> & Hpy).
  destruct (Hnext p y Hp Hpy) as [[-> ->]|[-> ->]];
    rewrite !elem_of_cons; auto.
Qed.

End WithTree.

End ChecksFacts.

(** * The claims about [analyze] *)

Lemma outcome_analyze (host : Host) (entry : string) (bound : option Z) :
  outcome_of (Api.analyze host entry bound)
  = analyze_dependencies host entry (default 36%Z bound).
Proof. reflexivity. Qed.




(** C3 (counterexample). [a] requires [b] and [b] requires [a], but [a]
    has a computed require first: [analyze] answers with the dynamic
    require error, not with the cycle. *)
Lemma analyze_mutual_cycle_after_dynamic :
  Analyzer.requires_edge Demo.dynamic_then_mutual "a.lua" "a.lua" "b.lua"
  ∧ Analyzer.requires_edge Demo.dynamic_then_mutual "a.lua" "b.lua" "a.lua"
  ∧ outcome_of (Api.analyze (Demo.host Demo.dynamic_then_mutual) "a.lua" None)
    = inl (DynamicRequireError "a.lua" 1 "prefix .. name").
Proof.
  split; [|split]; [| |reflexivity].
  - apply ChecksFacts.requires_targets. by apply (bool_decide_unpack _).
  - apply ChecksFacts.requires_targets. by apply (bool_decide_unpack _).
Qed.

(** C3 (as amended). When the entry [A] and a file [B] require each
    other, every require site the entry reaches can be followed, the
    reachable units fit the bound, and every require cycle goes through
    both files, [analyze] fails with [CircularDependencyError] carrying a
    cycle of the require graph, in cycle order, that names both. *)
Theorem analyze_mutual_cycle (tree : Analyzer.SourceTree)
    (name : string → string)
    (engine : string → list string → option string → bool →
              LuaInstallerException + string)
    (entry : string) (bound : option Z) (B : string) :
  let A := Analyzer.canonical tree entry in
  Analyzer.is_script tree entry = true →
  Analyzer.all_followable tree A →
  Analyzer.within_bound tree A (default 36%Z bound) →
  Analyzer.requires_edge tree A A B →
  Analyzer.requires_edge tree A B A →
  (∀ c, Analyzer.is_cycle tree A c → A ∈ c ∧ B ∈ c) →
  ∃ cycle,
    outcome_of (Api.analyze (host_of tree name engine) entry bound)
    = inl (CircularDependencyError cycle)
    ∧ Analyzer.is_cycle tree A cycle ∧ A ∈ cycle ∧ B ∈ cycle.
Proof.
  intros A Hscript Hfollow Hbound HAB HBA Honly. rewrite outcome_analyze.
  destruct (AnalyzerFacts.answer_cycle tree entry (default 36%Z bound)
              Hscript Hfollow Hbound) as (cycle & Hres & Hcycle).
  { intros Hacyclic. apply (Hacyclic A); [apply rtc_refl|].
    eapply tc_l; [exact HAB|]. by apply tc_once. }
  exists cycle. split; [done|]. split; [done|]. by apply Honly.
Qed.

Lemma analyze_mutual_cycle_witness :
  Analyzer.is_script Demo.mutual "a.lua" = true
  ∧ Analyzer.all_followable Demo.mutual "a.lua"
  ∧ Analyzer.within_bound Demo.mutual "a.lua" 36
  ∧ Analyzer.requires_edge Demo.mutual "a.lua" "a.lua" "b.lua"
  ∧ Analyzer.requires_edge Demo.mutual "a.lua" "b.lua" "a.lua"
  ∧ (∀ c, Analyzer.is_cycle Demo.mutual "a.lua" c → "a.lua" ∈ c ∧ "b.lua" ∈ c)
  ∧ ∃ cycle,
      outcome_of (Api.analyze (Demo.host Demo.mutual) "a.lua" None)
      = inl (CircularDependencyError cycle)
      ∧ Analyzer.is_cycle Demo.mutual "a.lua" cycle
      ∧ "a.lua" ∈ cycle ∧ "b.lua" ∈ cycle.
Proof.
  set (universe := ["a.lua"; "b.lua"]).
  assert (Hroot : "a.lua" ∈ universe) by left.
  assert (Hclosed : Checks.closed_in Demo.mutual "a.lua" universe universe = true)
    by reflexivity.
  assert (Hfollow : Analyzer.all_followable Demo.mutual "a.lua")
    by (by apply (ChecksFacts.followable_spec _ _ universe)).
  assert (Hbound : Analyzer.within_bound Demo.mutual "a.lua" 36)
    by (apply (ChecksFacts.closed_within_bound _ _ universe); [done..|simpl; lia]).
  assert (HAB : Analyzer.requires_edge Demo.mutual "a.lua" "a.lua" "b.lua").
  { apply ChecksFacts.requires_targets. by apply (bool_decide_unpack _). }
  assert (HBA : Analyzer.requires_edge Demo.mutual "a.lua" "b.lua" "a.lua").
  { apply ChecksFacts.requires_targets. by apply (bool_decide_unpack _). }
  assert (Honly : ∀ c, Analyzer.is_cycle Demo.mutual "a.lua" c →
                       "a.lua" ∈ c ∧ "b.lua" ∈ c).
  { apply ChecksFacts.cycle_through_both; [reflexivity..|].
    intros v Hv%(ChecksFacts.closed_reachable _ _ universe); [|done..].
    apply elem_of_cons in Hv as [->|Hv]; [by left|right].
    by apply list_elem_of_singleton in Hv. }
  split; [reflexivity|]. do 5 (split; [done|]).
  exact (analyze_mutual_cycle Demo.mutual (fun p => p) Demo.engine "a.lua" None
           "b.lua" eq_refl Hfollow Hbound HAB HBA Honly).
Defined.

(** The concrete scenario of the design: entry [a] requires [b], [b]
    requires [a], and the cycle reported is [a, b, a]. *)
Example analyze_mutual_cycle_scenario :
  outcome_of (Api.analyze (Demo.host Demo.mutual) "a.lua" None)
  = inl (CircularDependencyError ["a.lua"; "b.lua"; "a.lua"]).
Proof. reflexivity. Qed.

(** C4 (counterexample). The entry requires [helper], which has a
    computed require, but a require of a module that is nowhere comes
    first in the entry: [helper] is never read, and [analyze] answers
    with the module-not-found error. *)
Lemma analyze_dynamic_require_after_missing :
  Analyzer.reachable Demo.missing_then_helper "main.lua" "helper.lua"
  ∧ Demo.dyn "name" 1 ∈ Analyzer.scan Demo.missing_then_helper "helper.lua"
  ∧ Analyzer.site_is_literal (Demo.dyn "name" 1) = false
  ∧ outcome_of (Api.analyze (Demo.host Demo.missing_then_helper) "main.lua" None)
    = inl (ModuleNotFoundError "main.lua" "nowhere"
             ["nowhere.lua"; "nowhere/init.lua"]).
Proof.
  split; [|split; [|split; reflexivity]].
  - apply rtc_once, ChecksFacts.requires_targets.
    by apply (bool_decide_unpack _).
  - by apply (bool_decide_unpack _).
Qed.

(** C4 (as amended). When a reachable file has a require whose argument
    is not a literal string, every literal require the entry reaches
    resolves to a script, the require graph is acyclic and the
    dependencies fit the bound, [analyze] fails with [DynamicRequireError]
    naming a reachable file and the line and text of a non-literal
    require in it; no list is returned. *)
Theorem analyze_dynamic_require (tree : Analyzer.SourceTree)
    (name : string → string)
    (engine : string → list string → option string → bool →
              LuaInstallerException + string)
    (entry : string) (bound : option Z)
    (file : string) (site : Analyzer.RequireSite) :
  let root := Analyzer.canonical tree entry in
  Analyzer.is_script tree entry = true →
  Analyzer.all_resolvable tree root →
  Analyzer.acyclic tree root →
  Analyzer.within_limit tree root (default 36%Z bound) →
  Analyzer.reachable tree root file →
  site ∈ Analyzer.scan tree file →
  Analyzer.site_is_literal site = false →
  ∃ f s,
    outcome_of (Api.analyze (host_of tree name engine) entry bound)
    = inl (DynamicRequireError f (Analyzer.site_line s) (Analyzer.site_argument s))
    ∧ Analyzer.reachable tree root f
    ∧ s ∈ Analyzer.scan tree f
    ∧ Analyzer.site_is_literal s = false.
Proof.
  intros root Hscript Hres Hacyclic Hbound Hfile Hsite Hdyn.
  rewrite outcome_analyze.
  by apply (AnalyzerFacts.answer_dynamic tree entry _ file site).
Qed.

Lemma analyze_dynamic_require_witness :
  Analyzer.is_script Demo.util_then_dynamic "main.lua" = true
  ∧ Analyzer.all_resolvable Demo.util_then_dynamic "main.lua"
  ∧ Analyzer.acyclic Demo.util_then_dynamic "main.lua"
  ∧ Analyzer.within_limit Demo.util_then_dynamic "main.lua" 36
  ∧ Analyzer.reachable Demo.util_then_dynamic "main.lua" "main.lua"
  ∧ Demo.dyn "name" 2 ∈ Analyzer.scan Demo.util_then_dynamic "main.lua"
  ∧ Analyzer.site_is_literal (Demo.dyn "name" 2) = false
  ∧ ∃ f s,
      outcome_of (Api.analyze (Demo.host Demo.util_then_dynamic) "main.lua" None)
      = inl (DynamicRequireError f (Analyzer.site_line s)
               (Analyzer.site_argument s))
      ∧ Analyzer.reachable Demo.util_then_dynamic "main.lua" f
      ∧ s ∈ Analyzer.scan Demo.util_then_dynamic f
      ∧ Analyzer.site_is_literal s = false.
Proof.
  set (universe := ["main.lua"; "util.lua"]).
  assert (Hroot : "main.lua" ∈ universe) by left.
  assert (Hclosed : Checks.closed_in Demo.util_then_dynamic "main.lua"
                      universe universe = true) by reflexivity.
  assert (Hres : Analyzer.all_resolvable Demo.util_then_dynamic "main.lua")
    by (by apply (ChecksFacts.resolvable_spec _ _ universe)).
  assert (Hacyclic : Analyzer.acyclic Demo.util_then_dynamic "main.lua")
    by (by apply (ChecksFacts.ranked_spec _ _ Demo.util_rank universe)).
  assert (Hbound : Analyzer.within_limit Demo.util_then_dynamic "main.lua" 36)
    by (apply (AnalyzerFacts.within_bound_limit Demo.util_then_dynamic "main.lua"),
          (ChecksFacts.closed_within_bound _ _ universe); [done..|simpl; lia]).
  assert (Hfile : Analyzer.reachable Demo.util_then_dynamic "main.lua" "main.lua")
    by apply rtc_refl.
  assert (Hsite : Demo.dyn "name" 2
                  ∈ Analyzer.scan Demo.util_then_dynamic "main.lua")
    by (by apply (bool_decide_unpack _)).
  split; [reflexivity|]. do 5 (split; [done|]). split; [reflexivity|].
  exact (analyze_dynamic_require Demo.util_then_dynamic (fun p => p) Demo.engine
           "main.lua" None "main.lua" (Demo.dyn "name" 2)
           eq_refl Hres Hacyclic Hbound Hfile Hsite eq_refl).
Defined.

(** C5 (counterexample). The entry requires two distinct scripts, more
    than a bound of one allows; but a computed require comes first and
    [analyze] answers with the dynamic require error - also under the
    default bound, within which the two scripts stay. *)
Lemma analyze_node_limit_after_dynamic :
  Analyzer.requires_edge Demo.dynamic_then_two "main.lua" "main.lua" "one.lua"
  ∧ Analyzer.requires_edge Demo.dynamic_then_two "main.lua" "main.lua" "two.lua"
  ∧ "one.lua" ≠ "two.lua" ∧ "main.lua" ≠ "one.lua" ∧ "main.lua" ≠ "two.lua"
  ∧ outcome_of (Api.analyze (Demo.host Demo.dynamic_then_two) "main.lua" (Some 1%Z))
    = inl (DynamicRequireError "main.lua" 1 "name")
  ∧ outcome_of (Api.analyze (Demo.host Demo.dynamic_then_two) "main.lua" None)
    = inl (DynamicRequireError "main.lua" 1 "name").
Proof.
  split; [|split]; [| |by repeat split].
  - apply ChecksFacts.requires_targets. by apply (bool_decide_unpack _).
  - apply ChecksFacts.requires_targets. by apply (bool_decide_unpack _).
Qed.

(** C5 (as amended). For an entry whose require graph can be followed
    everywhere, is acyclic and reaches the scripts [deps]: when these are
    more than the bound (a bound that is not negative), [analyze] fails
    with [DependencyLimitExceededError] carrying the bound; when they stay
    within the bound it succeeds with those scripts.  The bound is
    checked before each insertion, so that no site leaves the graph with
    more dependencies than the bound, the nodes being the entry and the
    dependencies; and without an explicit bound the limit is 36. *)
Theorem analyze_node_limit (tree : Analyzer.SourceTree)
    (name : string → string)
    (engine : string → list string → option string → bool →
              LuaInstallerException + string)
    (entry : string) (bound : option Z) (deps : list string) :
  let host := host_of tree name engine in
  let root := Analyzer.canonical tree entry in
  let limit := default 36%Z bound in
  Analyzer.is_script tree entry = true →
  Analyzer.all_followable tree root →
  Analyzer.acyclic tree root →
  Analyzer.dependencies_are tree root deps →
  ((0 ≤ limit < Z.of_nat (length deps))%Z →
   ∃ count module_name,
     outcome_of (Api.analyze host entry bound)
     = inl (DependencyLimitExceededError limit count module_name))
  ∧ ((Z.of_nat (length deps) ≤ limit)%Z →
     ∃ result, outcome_of (Api.analyze host entry bound) = inr result
               ∧ result ≡ₚ deps)
  ∧ (∀ u g q s g' q',
       Analyzer.process_site tree root limit u (g, q) s = inr (g', q') →
       (Z.of_nat (length (Analyzer.nodes g)) ≤ 1 + limit)%Z →
       (Z.of_nat (length (Analyzer.nodes g')) ≤ 1 + limit)%Z)
  ∧ Api.analyze host entry None = Api.analyze host entry (Some 36%Z).
Proof.
  intros host root limit Hscript Hfollow Hacyclic Hdeps.
  subst host. rewrite !outcome_analyze. split; [|split; [|split]].
  - intros Hover.
    by apply (AnalyzerFacts.answer_beyond_bound tree entry limit deps).
  - intros Hfits.
    destruct (AnalyzerFacts.answer_within_bound tree entry limit deps
                Hscript Hfollow Hacyclic Hdeps Hfits) as (result & Hres & Hperm & _).
    by exists result.
  - intros u g q s g' q'. apply AnalyzerFacts.process_site_count.
  - reflexivity.
Qed.

(** The diamond has three dependencies: a bound of two refuses it, a
    bound of three admits it. *)
Lemma analyze_node_limit_witness :
  Analyzer.is_script Demo.diamond "main.lua" = true
  ∧ Analyzer.all_followable Demo.diamond "main.lua"
  ∧ Analyzer.acyclic Demo.diamond "main.lua"
  ∧ Analyzer.dependencies_are Demo.diamond "main.lua"
      ["left.lua"; "right.lua"; "shared.lua"]
  ∧ (0 ≤ 2 < Z.of_nat (length ["left.lua"; "right.lua"; "shared.lua"]))%Z
  ∧ (Z.of_nat (length ["left.lua"; "right.lua"; "shared.lua"]) ≤ 3)%Z
  ∧ (∃ count module_name,
        outcome_of (Api.analyze (Demo.host Demo.diamond) "main.lua" (Some 2%Z))
        = inl (DependencyLimitExceededError 2 count module_name))
  ∧ ∃ result,
      outcome_of (Api.analyze (Demo.host Demo.diamond) "main.lua" (Some 3%Z))
      = inr result
      ∧ result ≡ₚ ["left.lua"; "right.lua"; "shared.lua"].
Proof.
  set (universe := ["main.lua"; "left.lua"; "right.lua"; "shared.lua"]).
  assert (Hroot : "main.lua" ∈ universe) by left.
  assert (Hclosed : Checks.closed_in Demo.diamond "main.lua" universe universe = true)
    by reflexivity.
  assert (Hfollow : Analyzer.all_followable Demo.diamond "main.lua")
    by (by apply (ChecksFacts.followable_spec _ _ universe)).
  assert (Hacyclic : Analyzer.acyclic Demo.diamond "main.lua")
    by (by apply (ChecksFacts.ranked_spec _ _ Demo.diamond_rank universe)).
  assert (Hdeps : Analyzer.dependencies_are Demo.diamond "main.lua"
                    ["left.lua"; "right.lua"; "shared.lua"]).
  { apply ChecksFacts.dependencies_spec; [|reflexivity..].
    apply (bool_decide_unpack _). vm_compute. exact I. }
  assert (Hover : (0 ≤ 2 < Z.of_nat (length ["left.lua"; "right.lua";
                                             "shared.lua"]))%Z)
    by (simpl; lia).
  assert (Hfits : (Z.of_nat (length ["left.lua"; "right.lua"; "shared.lua"])
                   ≤ 3)%Z) by (simpl; lia).
  split; [reflexivity|]. do 5 (split; [done|]). split.
  - exact (proj1 (analyze_node_limit Demo.diamond (fun p => p) Demo.engine
                    "main.lua" (Some 2%Z) _ eq_refl Hfollow Hacyclic Hdeps)
             Hover).
  - exact (proj1 (proj2 (analyze_node_limit Demo.diamond (fun p => p)
                           Demo.engine "main.lua" (Some 3%Z) _ eq_refl
                           Hfollow Hacyclic Hdeps)) Hfits).
Defined.

(** The concrete scenario of the design: [main] requires [util], which
    requires nothing. *)
Example analyze_main_util_scenario :
  outcome_of (Api.analyze (Demo.host Demo.main_util) "main.lua" None)
  = inr ["util.lua"].
Proof. reflexivity. Qed.

(** * The claims about [build] *)

(** C1. In automatic mode [build] first runs the analysis of the entry
    with the given bound; in manual mode it never runs it.  Whenever the
    engine is invoked, the dependency list it receives is the analyzed
    dependencies (none in manual mode) followed by the resolved path of
    each explicit require that is neither among the analyzed paths nor
    the path of an earlier require, in the order given; and the engine is
    invoked with that list as soon as the analysis step went through and
    the explicit requires are on disk. *)
Theorem build_dependency_list (host : Host) (entry : string)
    (requires : option (list string)) (max_deps : Z)
    (output : option string) (manual : bool) :
  let call := Api.build host entry requires max_deps output manual in
  let reqs := default [] requires in
  let merged_with (analyzed : list string) :=
    analyzed
      ++ Api.appended_requires host (path_resolve host <$> analyzed) [] reqs in
  (manual = false → ∃ rest, trace_of call = EvAnalyze entry max_deps :: rest)
  ∧ (manual = true → ∀ e m, EvAnalyze e m ∉ trace_of call)
  ∧ (∀ e dependencies o v,
        EvCompile e dependencies o v ∈ trace_of call →
        ∃ analyzed,
          Api.analysis_gave host entry max_deps manual analyzed
          ∧ dependencies = merged_with analyzed)
  ∧ (∀ analyzed,
        Api.analysis_gave host entry max_deps manual analyzed →
        Forall (Api.on_disk host) reqs →
        trace_of call
        = Api.analysis_events entry max_deps manual
            ++ Api.packaging_events host entry (merged_with analyzed) output
        ∧ outcome_of call
          = compile_lua_script host entry (merged_with analyzed) output false).
Proof.
  intros call reqs merged_with. subst call reqs merged_with.
  split; [|split; [|split]].
  - intros ->. unfold trace_of.
    destruct (analyze_dependencies host entry max_deps) as [e|analyzed] eqn:Han.
    { rewrite (ApiFacts.build_run_analysis_error _ _ _ _ _ _ Han). by eexists. }
    destruct (Api.merged host requires analyzed) as [e|deps] eqn:Hm.
    + rewrite (ApiFacts.build_run_merge_error host _ _ _ _ false _ _ Han Hm).
      by eexists.
    + rewrite (ApiFacts.build_run_ok host _ _ _ _ false _ _ Han Hm). by eexists.
  - intros -> e m. unfold trace_of.
    destruct (Api.merged host requires []) as [e'|deps] eqn:Hm.
    + rewrite (ApiFacts.build_run_merge_error host _ _ _ _ true _ _ eq_refl Hm).
      apply not_elem_of_nil.
    + rewrite (ApiFacts.build_run_ok host _ _ _ _ true _ _ eq_refl Hm).
      apply ApiFacts.packaging_no_analysis.
  - intros e dependencies o v. unfold trace_of.
    assert (Hgave : (∃ err, manual = false
                            ∧ analyze_dependencies host entry max_deps = inl err)
                    ∨ ∃ analyzed, Api.analysis_gave host entry max_deps manual analyzed).
    { unfold Api.analysis_gave. destruct manual; [by right; exists []|].
      destruct (analyze_dependencies host entry max_deps) as [err|analyzed];
        [left|right]; by eexists. }
    destruct Hgave as [(err & -> & Herr)|(analyzed & Hgave)].
    { rewrite (ApiFacts.build_run_analysis_error _ _ _ _ _ _ Herr). simpl.
      intros Hin. apply elem_of_cons in Hin as [Hin|Hin]; [discriminate|].
      by apply elem_of_nil in Hin. }
    destruct (Api.merged host requires analyzed) as [e'|deps] eqn:Hm.
    + rewrite (ApiFacts.build_run_merge_error host _ _ _ _ _ _ _ Hgave Hm). simpl.
      intros Hin. by apply ApiFacts.analysis_no_compile in Hin.
    + rewrite (ApiFacts.build_run_ok host _ _ _ _ _ _ _ Hgave Hm). simpl.
      intros [Hin|Hin]%elem_of_app;
        [by apply ApiFacts.analysis_no_compile in Hin|].
      apply ApiFacts.packaging_compile in Hin as (_ & -> & _ & _).
      exists analyzed. split; [done|].
      pose proof (ApiFacts.merged_appended host requires analyzed
                    (ApiFacts.merged_on_disk host _ _ _ Hm)) as Hm'.
      congruence.
  - intros analyzed Hgave Hdisk. unfold trace_of, outcome_of.
    by rewrite (ApiFacts.build_run_ok host _ _ _ _ _ _ _ Hgave
                  (ApiFacts.merged_appended host requires analyzed Hdisk)).
Qed.

(** In automatic mode, with [left] analyzed to [shared.lua] and the
    explicit requires [left.lua], [shared.lua] (already analyzed, and
    given twice) and [right.lua], the engine receives
    [shared.lua; left.lua; right.lua]. *)
Lemma build_dependency_list_witness :
  Api.analysis_gave (Demo.host Demo.diamond) "left.lua" 36 false ["shared.lua"]
  ∧ Forall (Api.on_disk (Demo.host Demo.diamond))
           ["left.lua"; "shared.lua"; "shared.lua"; "right.lua"]
  ∧ trace_of (Api.build (Demo.host Demo.diamond) "left.lua"
                (Some ["left.lua"; "shared.lua"; "shared.lua"; "right.lua"])
                36 (Some "left.exe") false)
    = [EvAnalyze "left.lua" 36;
       EvCompile "left.lua" ["shared.lua"; "left.lua"; "right.lua"]
         (Some "left.exe") false;
       EvLogSuccess "api" "build" "Built left.lua -> left.exe"].
Proof.
  split; [reflexivity|]. split; [by repeat constructor|].
  refine (proj1 (proj2 (proj2 (proj2
            (build_dependency_list (Demo.host Demo.diamond) "left.lua"
               (Some ["left.lua"; "shared.lua"; "shared.lua"; "right.lua"])
               36 (Some "left.exe") false))) ["shared.lua"] eq_refl _)).
  by repeat constructor.
Defined.

(** C7. When the dependency analysis of a [build] fails, the error of the
    analysis is the outcome of the call, unchanged; the analysis is the
    only thing that happened, so no dependency list was assembled and the
    engine was never invoked. *)
Theorem build_analysis_error_aborts (host : Host) (entry : string)
    (requires : option (list string)) (max_deps : Z)
    (output : option string) (err : LuaInstallerException) :
  analyze_dependencies host entry max_deps = inl err →
  let call := Api.build host entry requires max_deps output false in
  outcome_of call = inl err
  ∧ trace_of call = [EvAnalyze entry max_deps]
  ∧ ∀ e d o v, EvCompile e d o v ∉ trace_of call.
Proof.
  intros Herr call. subst call. unfold outcome_of, trace_of.
  rewrite (ApiFacts.build_run_analysis_error _ _ _ _ _ _ Herr). simpl.
  repeat split. intros e d o v Hin.
  apply elem_of_cons in Hin as [Hin|Hin]; [discriminate|].
  by apply elem_of_nil in Hin.
Qed.

Lemma build_analysis_error_aborts_witness :
  analyze_dependencies (Demo.host Demo.mutual) "a.lua" 36
  = inl (CircularDependencyError ["a.lua"; "b.lua"; "a.lua"])
  ∧ outcome_of (Api.build (Demo.host Demo.mutual) "a.lua" (Some ["b.lua"]) 36
                  None false)
    = inl (CircularDependencyError ["a.lua"; "b.lua"; "a.lua"])
  ∧ trace_of (Api.build (Demo.host Demo.mutual) "a.lua" (Some ["b.lua"]) 36
                None false)
    = [EvAnalyze "a.lua" 36]
  ∧ ∀ e d o v,
      EvCompile e d o v
      ∉ trace_of (Api.build (Demo.host Demo.mutual) "a.lua" (Some ["b.lua"]) 36
                    None false).
Proof.
  split; [reflexivity|].
  exact (build_analysis_error_aborts (Demo.host Demo.mutual) "a.lua"
           (Some ["b.lua"]) 36 None _ eq_refl).
Defined.

(** C8 (counterexample). In automatic mode, with an explicit require that
    is not on disk and an entry whose analysis fails, [build] raises the
    error of the analysis and not [ScriptNotFoundError]. *)
Lemma build_missing_require_after_analysis_error :
  "lib.lua" ∈ ["lib.lua"]
  ∧ path_exists (Demo.host Demo.mutual) "lib.lua" = false
  ∧ outcome_of (Api.build (Demo.host Demo.mutual) "a.lua" (Some ["lib.lua"]) 36
                  None false)
    = inl (CircularDependencyError ["a.lua"; "b.lua"; "a.lua"]).
Proof. split; [left|]. split; reflexivity. Qed.

(** C8 (as amended). When some explicit require is not on disk and the
    analysis step went through (manual mode, or an analysis that
    returned), [build] raises [ScriptNotFoundError] for the first such
    require and the engine is never invoked. *)
Theorem build_missing_require (host : Host) (entry : string)
    (requires : option (list string)) (max_deps : Z)
    (output : option string) (manual : bool)
    (analyzed : list string) (req : string) :
  req ∈ default [] requires →
  path_exists host req = false →
  Api.analysis_gave host entry max_deps manual analyzed →
  let call := Api.build host entry requires max_deps output manual in
  (∃ req0, Api.first_missing host (default [] requires) = Some req0
           ∧ outcome_of call = inl (ScriptNotFoundError req0))
  ∧ ∀ e d o v, EvCompile e d o v ∉ trace_of call.
Proof.
  intros Hin Hmiss Hgave call. subst call.
  destruct (ApiFacts.first_missing_exists host _ _ Hin Hmiss)
    as (req0 & Hfirst & _ & _).
  pose proof (ApiFacts.merged_missing host requires analyzed req0 Hfirst) as Hm.
  unfold outcome_of, trace_of.
  rewrite (ApiFacts.build_run_merge_error host _ _ _ _ _ _ _ Hgave Hm). simpl.
  split; [by exists req0|]. intros e d o v.
  apply ApiFacts.analysis_no_compile.
Qed.

Lemma build_missing_require_witness :
  "lib.lua" ∈ default [] (Some ["util.lua"; "lib.lua"])
  ∧ path_exists (Demo.host Demo.main_util) "lib.lua" = false
  ∧ Api.analysis_gave (Demo.host Demo.main_util) "main.lua" 36 false ["util.lua"]
  ∧ (∃ req0,
       Api.first_missing (Demo.host Demo.main_util)
         (default [] (Some ["util.lua"; "lib.lua"])) = Some req0
       ∧ outcome_of (Api.build (Demo.host Demo.main_util) "main.lua"
                       (Some ["util.lua"; "lib.lua"]) 36 None false)
         = inl (ScriptNotFoundError req0))
  ∧ ∀ e d o v,
      EvCompile e d o v
      ∉ trace_of (Api.build (Demo.host Demo.main_util) "main.lua"
                    (Some ["util.lua"; "lib.lua"]) 36 None false).
Proof.
  assert (Hin : "lib.lua" ∈ default [] (Some ["util.lua"; "lib.lua"]))
    by (right; left).
  split; [done|]. split; [reflexivity|]. split; [reflexivity|].
  exact (build_missing_require (Demo.host Demo.main_util) "main.lua"
           (Some ["util.lua"; "lib.lua"]) 36 None false ["util.lua"] "lib.lua"
           Hin eq_refl eq_refl).
Defined.

(** C10. A manual [build] without explicit requires ([None] or the empty
    list) runs no analysis, invokes the engine with the empty dependency
    list, and its outcome is the outcome of the engine. *)
Theorem build_manual_without_requires (host : Host) (entry : string)
    (requires : option (list string)) (max_deps : Z) (output : option string) :
  requires = None ∨ requires = Some [] →
  let call := Api.build host entry requires max_deps output true in
  trace_of call = Api.packaging_events host entry [] output
  ∧ outcome_of call = compile_lua_script host entry [] output false
  ∧ ∀ e m, EvAnalyze e m ∉ trace_of call.
Proof.
  intros Hreq call. subst call.
  assert (Hm : Api.merged host requires [] = inr []) by (by destruct Hreq as [-> | ->]).
  unfold trace_of, outcome_of.
  rewrite (ApiFacts.build_run_ok host _ _ _ _ true _ _ eq_refl Hm). simpl.
  repeat split. intros e m. apply ApiFacts.packaging_no_analysis.
Qed.

(** A manual build of an entry whose analysis would fail goes through. *)
Lemma build_manual_without_requires_witness :
  ((Some [] : option (list string)) = None
     ∨ (Some [] : option (list string)) = Some [])
    ∧ trace_of (Api.build (Demo.host Demo.mutual) "a.lua" (Some []) 36 None true)
      = Api.packaging_events (Demo.host Demo.mutual) "a.lua" [] None
    ∧ outcome_of (Api.build (Demo.host Demo.mutual) "a.lua" (Some []) 36 None true)
      = compile_lua_script (Demo.host Demo.mutual) "a.lua" [] None false
    ∧ ∀ e m,
        EvAnalyze e m
        ∉ trace_of (Api.build (Demo.host Demo.mutual) "a.lua" (Some []) 36 None true).
Proof.
  split; [by right|].
  exact (build_manual_without_requires (Demo.host Demo.mutual) "a.lua" (Some [])
           36 None (or_intror eq_refl)).
Defined.


(** * More about [build] *)

Module BuildFacts.
Import Api.

Section WithHost.

Context (host : Host).

(** The three ways a [build] can go. *)
Lemma build_run_cases entry requires max_deps output manual :
  (∃ err, manual = false
          ∧ analyze_dependencies host entry max_deps = inl err
          ∧ build host entry requires max_deps output manual []
            = ([EvAnalyze entry max_deps], inl err))
  ∨ ∃ analyzed,
      analysis_gave host entry max_deps manual analyzed
      ∧ ((∃ err, merged host requires analyzed = inl err
                 ∧ build host entry requires max_deps output manual []
                   = (analysis_events entry max_deps manual, inl err))
         ∨ (∃ deps, merged host requires analyzed = inr deps
                    ∧ build host entry requires max_deps output manual []
                      = (analysis_events entry max_deps manual
                           ++ packaging_events host entry deps output,
                         compile_lua_script host entry deps output false))).
Proof.
  assert (Hstep : (∃ err, manual = false
                          ∧ analyze_dependencies host entry max_deps = inl err)
                  ∨ ∃ analyzed, analysis_gave host entry max_deps manual analyzed).
  { unfold analysis_gave. destruct manual; [by right; exists []|].
    destruct (analyze_dependencies host entry max_deps) as [err|analyzed];
      [left|right]; by eexists. }
  destruct Hstep as [(err & -> & Herr)|(analyzed & Hgave)].
  { left. exists err. split; [done|]. split; [done|].
    by apply ApiFacts.build_run_analysis_error. }
  right. exists analyzed. split; [done|].
  destruct (merged host requires analyzed) as [err|deps] eqn:Hm; [left|right].
  - exists err. split; [done|].
    by apply (ApiFacts.build_run_merge_error host _ _ _ _ _ analyzed).
  - exists deps. split; [done|].
    by apply (ApiFacts.build_run_ok host _ _ _ _ _ analyzed).
Qed.

Lemma analysis_gave_unique entry max_deps manual analyzed analyzed' :
  analysis_gave host entry max_deps manual analyzed →
  analysis_gave host entry max_deps manual analyzed' →
  analyzed = analyzed'.
Proof. unfold analysis_gave. destruct manual; congruence. Qed.

(** The list behind an engine call. *)
Lemma engine_call_merged entry requires max_deps output manual analyzed e deps o v :
  analysis_gave host entry max_deps manual analyzed →
  EvCompile e deps o v
  ∈ trace_of (build host entry requires max_deps output manual) →
  merged host requires analyzed = inr deps.
Proof.
  intros Hgave. unfold trace_of.
  destruct (build_run_cases entry requires max_deps output manual)
    as [(err & -> & Herr & _)|(analyzed' & Hgave' & Hcases)].
  { unfold analysis_gave in Hgave. congruence. }
  rewrite <- (analysis_gave_unique _ _ _ _ _ Hgave Hgave') in Hcases.
  destruct Hcases as [(err & _ & ->)|(deps' & Hm & ->)]; simpl.
  - intros Hin. by apply ApiFacts.analysis_no_compile in Hin.
  - intros [Hin|Hin]%elem_of_app;
      [by apply ApiFacts.analysis_no_compile in Hin|].
    by apply ApiFacts.packaging_compile in Hin as (_ & -> & _ & _).
Qed.

(** ** What the merge appends *)

Lemma appended_requires_elem analyzed requires :
  ∀ earlier c,
    c ∈ appended_requires host analyzed earlier requires →
    c ∈ (path_resolve host <$> requires) ∧ (c ∉ analyzed) ∧ (c ∉ earlier).
Proof.
  induction requires as [|req rest IH]; intros earlier c Hc;
    [by apply elem_of_nil in Hc|].
  simpl in Hc. rewrite fmap_cons, elem_of_cons.
  apply elem_of_app in Hc as [Hc|Hc].
  - destruct (bool_decide (path_resolve host req ∈ analyzed
                           ∨ path_resolve host req ∈ earlier)) eqn:Hb;
      [by apply elem_of_nil in Hc|].
    apply list_elem_of_singleton in Hc as ->.
    apply bool_decide_eq_false_1 in Hb. tauto.
  - apply IH in Hc as (Hin & Hna & Hne). rewrite elem_of_app in Hne. tauto.
Qed.

Lemma appended_requires_NoDup analyzed requires :
  ∀ earlier, NoDup (appended_requires host analyzed earlier requires).
Proof.
  induction requires as [|req rest IH]; intros earlier; simpl; [constructor|].
  destruct (bool_decide _); simpl; [apply IH|].
  apply NoDup_cons. split; [|apply IH].
  intros (_ & _ & Hne)%appended_requires_elem.
  apply Hne, elem_of_app. right. left.
Qed.

Lemma appended_requires_covers analyzed requires :
  ∀ earlier req,
    req ∈ requires →
    path_resolve host req ∈ analyzed
    ∨ path_resolve host req ∈ earlier
    ∨ path_resolve host req ∈ appended_requires host analyzed earlier requires.
Proof.
  induction requires as [|r rest IH]; intros earlier req Hreq;
    [by apply elem_of_nil in Hreq|].
  simpl. apply elem_of_cons in Hreq as [->|Hreq].
  - destruct (bool_decide (path_resolve host r ∈ analyzed
                           ∨ path_resolve host r ∈ earlier)) eqn:Hb.
    + apply bool_decide_eq_true_1 in Hb. tauto.
    + right. right. left.
  - destruct (IH (earlier ++ [path_resolve host r]) req Hreq)
      as [?|[Hin|?]]; [by left| |].
    + apply elem_of_app in Hin as [?|Hin]; [by right; left|].
      apply list_elem_of_singleton in Hin. rewrite Hin.
      destruct (bool_decide (path_resolve host r ∈ analyzed
                             ∨ path_resolve host r ∈ earlier)) eqn:Hb.
      * apply bool_decide_eq_true_1 in Hb. tauto.
      * right. right. left.
    + right. right. apply elem_of_app. by right.
Qed.

Lemma appended_requires_nothing analyzed requires :
  ∀ earlier,
    (∀ req, req ∈ requires → path_resolve host req ∈ analyzed) →
    appended_requires host analyzed earlier requires = [].
Proof.
  induction requires as [|req rest IH]; intros earlier Hall; [done|].
  simpl. rewrite bool_decide_eq_true_2 by (left; apply Hall; left).
  apply IH. intros r Hr. apply Hall. by right.
Qed.

(** The merge depends on the file system only. *)
Lemma merge_requires_same (other : Host) requires :
  (∀ p, path_exists host p = path_exists other p) →
  (∀ p, path_resolve host p = path_resolve other p) →
  ∀ dependencies (dependency_set : gset string),
    merge_requires host requires dependencies dependency_set
    = merge_requires other requires dependencies dependency_set.
Proof.
  intros Hexists Hresolve.
  induction requires as [|req rest IH]; intros deps dset; [done|].
  simpl. rewrite <- Hexists, <- Hresolve.
  destruct (path_exists host req); [|done]. simpl.
  destruct (decide _); apply IH.
Qed.

End WithHost.

End BuildFacts.

(** * More properties of [build] *)

(** X1. A [build] logs its success exactly when it returns a path; the
    engine is called at most once; and a successful build is, after the
    analysis step, one engine call followed by the success log. *)
Theorem build_logs_iff_success (host : Host) (entry : string)
    (requires : option (list string)) (max_deps : Z)
    (output : option string) (manual : bool) :
  let call := Api.build host entry requires max_deps output manual in
  ((∃ result, outcome_of call = inr result)
   ↔ ∃ source action text, EvLogSuccess source action text ∈ trace_of call)
  ∧ length (Api.engine_calls (trace_of call)) ≤ 1
  ∧ ∀ result,
      outcome_of call = inr result →
      ∃ dependencies,
        trace_of call
        = Api.analysis_events entry max_deps manual
            ++ [EvCompile entry dependencies output false;
                Api.build_log host entry result].
Proof.
  intros call. subst call. unfold outcome_of, trace_of.
  assert (Hno : ∀ s a t, EvLogSuccess s a t
                         ∉ Api.analysis_events entry max_deps manual).
  { intros s a t. unfold Api.analysis_events. destruct manual.
    - apply not_elem_of_nil.
    - intros Hin. apply elem_of_cons in Hin as [Hin|Hin]; [discriminate|].
      by apply elem_of_nil in Hin. }
  assert (Hcalls : Api.engine_calls (Api.analysis_events entry max_deps manual) = [])
    by (by destruct manual).
  destruct (BuildFacts.build_run_cases host entry requires max_deps output manual)
    as [(err & -> & _ & ->)|(analyzed & _ & [(err & _ & ->)|(deps & _ & ->)])];
    simpl.
  - split; [|split].
    + split; [by intros [? ?]|]. intros (s & a & t & Hin).
      apply elem_of_cons in Hin as [Hin|Hin]; [discriminate|].
      by apply elem_of_nil in Hin.
    + lia.
    + by intros ? ?.
  - split; [|split].
    + split; [by intros [? ?]|]. intros (s & a & t & Hin). by apply Hno in Hin.
    + rewrite Hcalls. simpl. lia.
    + by intros ? ?.
  - unfold Api.packaging_events, Api.engine_calls.
    rewrite List.filter_app. fold (Api.engine_calls (Api.analysis_events entry max_deps manual)).
    rewrite Hcalls.
    destruct (compile_lua_script host entry deps output false) as [err|result];
      simpl; (split; [|split]); try lia.
    + split; [by intros [? ?]|]. intros (s & a & t & [Hin|Hin]%elem_of_app);
        [by apply Hno in Hin|].
      apply elem_of_cons in Hin as [Hin|Hin]; [discriminate|].
      by apply elem_of_nil in Hin.
    + by intros ? ?.
    + split; [|by eexists]. intros _. eexists _, _, _.
      apply elem_of_app. right. right. left.
    + intros ? [= <-]. by exists deps.
Qed.

Lemma build_logs_iff_success_witness :
  outcome_of (Api.build (Demo.host Demo.main_util) "main.lua" None 36%Z None
                false) = inr "a.out"
  ∧ ∃ dependencies,
      trace_of (Api.build (Demo.host Demo.main_util) "main.lua" None 36%Z None
                  false)
      = Api.analysis_events "main.lua" 36%Z false
          ++ [EvCompile "main.lua" dependencies None false;
              Api.build_log (Demo.host Demo.main_util) "main.lua" "a.out"].
Proof.
  split; [reflexivity|].
  apply (proj2 (proj2 (build_logs_iff_success (Demo.host Demo.main_util)
                         "main.lua" None 36%Z None false))).
  reflexivity.
Defined.

(** X2. When the analyzer returns canonical paths without duplicates (none
    in manual mode), the dependency list the engine receives has no
    duplicates. *)
Theorem build_engine_list_no_duplicates (host : Host) (entry : string)
    (requires : option (list string)) (max_deps : Z)
    (output : option string) (manual : bool)
    (analyzed : list string)
    (e : string) (dependencies : list string) (o : option string) (v : bool) :
  Api.analysis_gave host entry max_deps manual analyzed →
  NoDup analyzed →
  (∀ a, a ∈ analyzed → path_resolve host a = a) →
  EvCompile e dependencies o v
  ∈ trace_of (Api.build host entry requires max_deps output manual) →
  NoDup dependencies.
Proof.
  intros Hgave Hnd Hcanon Hin.
  pose proof (BuildFacts.engine_call_merged host _ _ _ _ _ _ _ _ _ _ Hgave Hin)
    as Hm.
  rewrite (ApiFacts.merged_appended host requires analyzed
             (ApiFacts.merged_on_disk host _ _ _ Hm)) in Hm.
  injection Hm as <-.
  assert (Hfmap : path_resolve host <$> analyzed = analyzed).
  { clear -Hcanon. induction analyzed as [|a l IH]; [done|]. simpl.
    rewrite (Hcanon a) by left. f_equal. apply IH.
    intros a' Ha'. apply Hcanon. by right. }
  rewrite Hfmap. apply NoDup_app. split; [done|]. split.
  - intros c Hc (_ & Hna & _)%BuildFacts.appended_requires_elem. done.
  - apply BuildFacts.appended_requires_NoDup.
Qed.

Lemma build_engine_list_no_duplicates_witness :
  Api.analysis_gave (Demo.host Demo.diamond) "main.lua" 36 false
    ["left.lua"; "right.lua"; "shared.lua"]
  ∧ NoDup ["left.lua"; "right.lua"; "shared.lua"]
  ∧ (∀ a, a ∈ ["left.lua"; "right.lua"; "shared.lua"] →
          path_resolve (Demo.host Demo.diamond) a = a)
  ∧ EvCompile "main.lua" ["left.lua"; "right.lua"; "shared.lua"; "main.lua"]
      None false
    ∈ trace_of (Api.build (Demo.host Demo.diamond) "main.lua"
                  (Some ["shared.lua"; "main.lua"; "main.lua"]) 36 None false)
  ∧ NoDup ["left.lua"; "right.lua"; "shared.lua"; "main.lua"].
Proof.
  assert (Hnd : NoDup ["left.lua"; "right.lua"; "shared.lua"])
    by (apply (bool_decide_unpack _); vm_compute; exact I).
  assert (Hcanon : ∀ a, a ∈ ["left.lua"; "right.lua"; "shared.lua"] →
                        path_resolve (Demo.host Demo.diamond) a = a) by done.
  assert (Hin : EvCompile "main.lua"
                  ["left.lua"; "right.lua"; "shared.lua"; "main.lua"] None false
                ∈ trace_of (Api.build (Demo.host Demo.diamond) "main.lua"
                              (Some ["shared.lua"; "main.lua"; "main.lua"]) 36
                              None false))
    by (right; left).
  split; [reflexivity|]. split; [done|]. split; [done|]. split; [done|].
  exact (build_engine_list_no_duplicates (Demo.host Demo.diamond) "main.lua"
           (Some ["shared.lua"; "main.lua"; "main.lua"]) 36 None false
           ["left.lua"; "right.lua"; "shared.lua"] _ _ _ _
           eq_refl Hnd Hcanon Hin).
Defined.

(** X3. Whenever the engine is called, every explicit require is on disk
    and is covered by the list the engine receives or by the analyzed
    dependencies, by resolved path; and the list holds nothing but
    analyzed dependencies and resolved requires. *)
Theorem build_engine_list_covers_requires (host : Host) (entry : string)
    (requires : option (list string)) (max_deps : Z)
    (output : option string) (manual : bool)
    (analyzed : list string)
    (e : string) (dependencies : list string) (o : option string) (v : bool) :
  Api.analysis_gave host entry max_deps manual analyzed →
  EvCompile e dependencies o v
  ∈ trace_of (Api.build host entry requires max_deps output manual) →
  (∀ req, req ∈ default [] requires →
          path_exists host req = true
          ∧ (path_resolve host req ∈ (path_resolve host <$> analyzed)
             ∨ path_resolve host req ∈ dependencies))
  ∧ (∀ d, d ∈ dependencies →
          d ∈ analyzed ∨ d ∈ (path_resolve host <$> default [] requires)).
Proof.
  intros Hgave Hin.
  pose proof (BuildFacts.engine_call_merged host _ _ _ _ _ _ _ _ _ _ Hgave Hin)
    as Hm.
  pose proof (ApiFacts.merged_on_disk host _ _ _ Hm) as Hdisk.
  rewrite (ApiFacts.merged_appended host requires analyzed Hdisk) in Hm.
  injection Hm as <-. split.
  - intros req Hreq. split.
    + rewrite Forall_forall in Hdisk. by apply Hdisk.
    + destruct (BuildFacts.appended_requires_covers host
                  (path_resolve host <$> analyzed) _ [] req Hreq)
        as [?|[Hnil|?]]; [by left|by apply elem_of_nil in Hnil|].
      right. apply elem_of_app. by right.
  - intros d [Hd|Hd]%elem_of_app; [by left|right].
    by apply BuildFacts.appended_requires_elem in Hd as (? & _ & _).
Qed.

Lemma build_engine_list_covers_requires_witness :
  Api.analysis_gave (Demo.host Demo.diamond) "left.lua" 36 false ["shared.lua"]
  ∧ EvCompile "left.lua" ["shared.lua"; "right.lua"] None false
    ∈ trace_of (Api.build (Demo.host Demo.diamond) "left.lua"
                  (Some ["shared.lua"; "right.lua"]) 36 None false)
  ∧ (∀ req, req ∈ default [] (Some ["shared.lua"; "right.lua"]) →
            path_exists (Demo.host Demo.diamond) req = true
            ∧ (path_resolve (Demo.host Demo.diamond) req
               ∈ (path_resolve (Demo.host Demo.diamond) <$> ["shared.lua"])
               ∨ path_resolve (Demo.host Demo.diamond) req
                 ∈ ["shared.lua"; "right.lua"]))
  ∧ (∀ d, d ∈ ["shared.lua"; "right.lua"] →
          d ∈ ["shared.lua"]
          ∨ d ∈ (path_resolve (Demo.host Demo.diamond)
                   <$> default [] (Some ["shared.lua"; "right.lua"]))).
Proof.
  assert (Hin : EvCompile "left.lua" ["shared.lua"; "right.lua"] None false
                ∈ trace_of (Api.build (Demo.host Demo.diamond) "left.lua"
                              (Some ["shared.lua"; "right.lua"]) 36 None false))
    by (right; left).
  split; [reflexivity|]. split; [done|].
  exact (build_engine_list_covers_requires (Demo.host Demo.diamond) "left.lua"
           (Some ["shared.lua"; "right.lua"]) 36 None false ["shared.lua"]
           _ _ _ _ eq_refl Hin).
Defined.

(** X4. Explicit requires that are on disk and already among the analyzed
    dependencies, by resolved path, change nothing: the build runs exactly
    as without them. *)
Theorem build_requires_already_analyzed (host : Host) (entry : string)
    (requires : list string) (max_deps : Z)
    (output : option string) (analyzed : list string) :
  analyze_dependencies host entry max_deps = inr analyzed →
  (∀ req, req ∈ requires →
          path_exists host req = true
          ∧ path_resolve host req ∈ (path_resolve host <$> analyzed)) →
  Api.build host entry (Some requires) max_deps output false []
  = Api.build host entry None max_deps output false [].
Proof.
  intros Hgave Hall.
  assert (Hdisk : Forall (Api.on_disk host) (default [] (Some requires))).
  { apply Forall_forall. intros req Hreq. by apply Hall. }
  rewrite (ApiFacts.build_run_ok host entry (Some requires) max_deps output
             false analyzed _ Hgave
             (ApiFacts.merged_appended host (Some requires) analyzed Hdisk)).
  rewrite (ApiFacts.build_run_ok host entry None max_deps output
             false analyzed analyzed Hgave eq_refl).
  simpl. rewrite BuildFacts.appended_requires_nothing, app_nil_r; [done|].
  intros req Hreq. by apply Hall.
Qed.

Lemma build_requires_already_analyzed_witness :
  analyze_dependencies (Demo.host Demo.diamond) "main.lua" 36
  = inr ["left.lua"; "right.lua"; "shared.lua"]
  ∧ (∀ req, req ∈ ["shared.lua"; "left.lua"; "shared.lua"] →
            path_exists (Demo.host Demo.diamond) req = true
            ∧ path_resolve (Demo.host Demo.diamond) req
              ∈ (path_resolve (Demo.host Demo.diamond)
                   <$> ["left.lua"; "right.lua"; "shared.lua"]))
  ∧ Api.build (Demo.host Demo.diamond) "main.lua"
      (Some ["shared.lua"; "left.lua"; "shared.lua"]) 36 None false []
    = Api.build (Demo.host Demo.diamond) "main.lua" None 36 None false [].
Proof.
  assert (Hall : ∀ req, req ∈ ["shared.lua"; "left.lua"; "shared.lua"] →
                        path_exists (Demo.host Demo.diamond) req = true
                        ∧ path_resolve (Demo.host Demo.diamond) req
                          ∈ (path_resolve (Demo.host Demo.diamond)
                               <$> ["left.lua"; "right.lua"; "shared.lua"])).
  { intros req Hreq.
    repeat (apply elem_of_cons in Hreq as [->|Hreq];
            [split; [reflexivity|by apply (bool_decide_unpack _)]|]).
    by apply elem_of_nil in Hreq. }
  split; [reflexivity|]. split; [done|].
  exact (build_requires_already_analyzed (Demo.host Demo.diamond) "main.lua"
           ["shared.lua"; "left.lua"; "shared.lua"] 36 None
           ["left.lua"; "right.lua"; "shared.lua"] eq_refl Hall).
Defined.

(** X5. A manual [build] depends on neither the analyzer nor the bound:
    two hosts with the same file system and engine, whatever their
    analyzers and whatever the bounds, run it alike. *)
Theorem build_manual_ignores_analysis (host other : Host) (entry : string)
    (requires : option (list string)) (max_deps max_deps' : Z)
    (output : option string) :
  (∀ p, path_exists host p = path_exists other p) →
  (∀ p, path_resolve host p = path_resolve other p) →
  (∀ p, path_name host p = path_name other p) →
  (∀ e d o v, compile_lua_script host e d o v = compile_lua_script other e d o v) →
  Api.build host entry requires max_deps output true []
  = Api.build other entry requires max_deps' output true [].
Proof.
  intros Hexists Hresolve Hname Hcompile.
  assert (Hm : Api.merged host requires [] = Api.merged other requires []).
  { unfold Api.merged. destruct (Api.truthy requires); [|done].
    by apply BuildFacts.merge_requires_same. }
  destruct (Api.merged other requires []) as [err|deps] eqn:Hother.
  - rewrite (ApiFacts.build_run_merge_error host _ _ _ _ true [] err eq_refl Hm).
    by rewrite (ApiFacts.build_run_merge_error other _ _ _ _ true [] err
                  eq_refl Hother).
  - rewrite (ApiFacts.build_run_ok host _ _ _ _ true [] deps eq_refl Hm).
    rewrite (ApiFacts.build_run_ok other _ _ _ _ true [] deps eq_refl Hother).
    unfold Api.packaging_events, Api.build_log.
    rewrite Hcompile, Hname.
    destruct (compile_lua_script other entry deps output false); [done|].
    by rewrite Hname.
Qed.

Lemma build_manual_ignores_analysis_witness :
  analyze_dependencies (Demo.host Demo.mutual) "a.lua" 36
  ≠ analyze_dependencies Demo.mutual_with_other_analyzer "a.lua" 1
  ∧ Api.build (Demo.host Demo.mutual) "a.lua" (Some ["b.lua"]) 36 None true []
    = Api.build Demo.mutual_with_other_analyzer "a.lua" (Some ["b.lua"]) 1
        None true [].
Proof.
  split; [discriminate|].
  exact (build_manual_ignores_analysis (Demo.host Demo.mutual)
           Demo.mutual_with_other_analyzer "a.lua" (Some ["b.lua"]) 36 1 None
           (fun _ => eq_refl) (fun _ => eq_refl) (fun _ => eq_refl)
           (fun _ _ _ _ => eq_refl)).
Defined.

(** * Properties of the graphical front end *)

Module GuiFacts.
Import Gui.

Section WithDesktop.

Context (desk : Desktop).

Lemma consistent_write_entry_script w text :
  consistent desk w → consistent desk (write_entry_script desk w text).
Proof. intros (_ & Hb & He). by repeat split. Qed.

Lemma consistent_set_status w text :
  consistent desk w → consistent desk (_set_status w text).
Proof. intros (Ho & Hb & He). by repeat split. Qed.

Lemma consistent_set_building w building :
  consistent desk w → consistent desk (_set_building w building).
Proof. intros (Ho & Hb & He). by repeat split. Qed.

Lemma consistent_act w a : consistent desk w → consistent desk (act desk w a).
Proof.
  intros Hw. destruct a as [text|filepath| |c]; simpl.
  - by apply consistent_write_entry_script.
  - unfold _browse_entry_script. destruct (decide (filepath = "")); [done|].
    by apply consistent_write_entry_script.
  - unfold _start_build.
    destruct (_validate_entry_script desk w) as [shown [entry_path|]]; [|done].
    destruct (decide (strip desk (output_path_var w) = "")); [done|]. simpl.
    by apply consistent_set_building, consistent_set_status.
  - destruct c as [text|text| | |building]; simpl;
      [by apply consistent_set_status|done..|by apply consistent_set_building].
Qed.

Lemma consistent_initial : strip desk "" = "" → consistent desk (initial desk).
Proof.
  intros Hstrip. unfold initial, _check_environment.
  assert (Hw : consistent desk {| entry_script_var := "";
                             output_path_var := "";
                             status_var := "Ready";
                             is_building := false;
                             build_button_state := "normal";
                             entry_script_entry_state := "normal" |}).
  { repeat split. simpl. unfold generated_output. rewrite Hstrip.
    by destruct (decide ("" = "")). }
  destruct (forallb snd (get_environment_status desk)); [done|].
  by apply consistent_set_status.
Qed.

Lemma consistent_foldl actions :
  ∀ w, consistent desk w → consistent desk (foldl (act desk) w actions).
Proof.
  induction actions as [|a rest IH]; intros w Hw; [done|].
  simpl. by apply IH, consistent_act.
Qed.

Lemma validate_valid w :
  valid_entry desk w →
  _validate_entry_script desk w = ([], Some (strip desk (entry_script_var w))).
Proof.
  intros (Hne & Hex & Hsuf). unfold _validate_entry_script.
  destruct (decide (strip desk (entry_script_var w) = "")); [done|].
  rewrite Hex. simpl. by rewrite bool_decide_eq_true_2.
Qed.

Lemma validate_invalid w :
  ¬ valid_entry desk w →
  ∃ text, _validate_entry_script desk w = ([ShowError "Error" text], None)
          ∧ text ≠ "Output path not generated.".
Proof.
  intros Hinvalid. unfold _validate_entry_script.
  destruct (decide (strip desk (entry_script_var w) = "")) as [|Hne];
    [by eexists|].
  destruct (exists_ desk (strip desk (entry_script_var w))) eqn:Hex; simpl;
    [|by eexists].
  destruct (bool_decide (suffix desk (strip desk (entry_script_var w)) = ".lua"))
    eqn:Hsuf; simpl; [|by eexists].
  destruct Hinvalid. split; [done|]. split; [done|].
  by apply bool_decide_eq_true_1 in Hsuf.
Qed.

Lemma reached_consistent actions :
  strip desk "" = "" → consistent desk (reached desk actions).
Proof.
  intros Hstrip. unfold reached.
  by apply consistent_foldl, consistent_initial.
Qed.

Lemma valid_entry_cases w : valid_entry desk w ∨ ¬ valid_entry desk w.
Proof.
  unfold valid_entry.
  destruct (decide (strip desk (entry_script_var w) = "")) as [Hempty|Hne];
    [right; by intros (? & _)|].
  destruct (exists_ desk (strip desk (entry_script_var w)));
    [|right; by intros (_ & ? & _)].
  destruct (decide (suffix desk (strip desk (entry_script_var w)) = ".lua"));
    [by left|right; by intros (_ & _ & ?)].
Qed.

(** The effects and the callbacks of a worker, by what its collaborators
    answer. *)
Lemma do_build_analysis_raised entry_path output_path r :
  analyze_dependencies desk (as_str desk entry_path) = inl r →
  do_build desk entry_path output_path
  = (Analyzed (as_str desk entry_path) :: (handle desk r).1,
     (handle desk r).2 ++ [SetBuilding false]).
Proof.
  intros Hr. unfold do_build, do_build_try. rewrite Hr.
  by destruct (handle desk r).
Qed.

Lemma do_build_engine_raised entry_path output_path deps r :
  analyze_dependencies desk (as_str desk entry_path) = inr deps →
  compile_lua_script desk (as_str desk entry_path) deps (Some output_path) false
  = inl r →
  do_build desk entry_path output_path
  = ([Analyzed (as_str desk entry_path);
      Compiled (as_str desk entry_path) deps (Some output_path) false]
       ++ (handle desk r).1,
     (handle desk r).2 ++ [SetBuilding false]).
Proof.
  intros Hdeps Hr. unfold do_build, do_build_try. rewrite Hdeps, Hr.
  by destruct (handle desk r).
Qed.

Lemma do_build_done entry_path output_path deps result_path :
  analyze_dependencies desk (as_str desk entry_path) = inr deps →
  compile_lua_script desk (as_str desk entry_path) deps (Some output_path) false
  = inr result_path →
  do_build desk entry_path output_path
  = ([Analyzed (as_str desk entry_path);
      Compiled (as_str desk entry_path) deps (Some output_path) false;
      LoggedSuccess "gui" "build"
        ("Built " +:+ name desk entry_path +:+ " -> " +:+ name desk result_path)],
     [SetStatus "Build successful";
      ShowSuccess ("Build successful!" +:+ newline +:+ newline
                   +:+ "Output:" +:+ newline +:+ result_path);
      SetBuilding false]).
Proof.
  intros Hdeps Hr. unfold do_build, do_build_try. by rewrite Hdeps, Hr.
Qed.

(** The worker either went through or met a raise. *)
Lemma do_build_cases entry_path output_path :
  (∃ deps result_path,
      analyze_dependencies desk (as_str desk entry_path) = inr deps
      ∧ compile_lua_script desk (as_str desk entry_path) deps
          (Some output_path) false = inr result_path)
  ∨ (∃ r, analyze_dependencies desk (as_str desk entry_path) = inl r)
  ∨ (∃ deps r,
        analyze_dependencies desk (as_str desk entry_path) = inr deps
        ∧ compile_lua_script desk (as_str desk entry_path) deps
            (Some output_path) false = inl r).
Proof.
  destruct (analyze_dependencies desk (as_str desk entry_path)) as [r|deps];
    [right; left; by eexists|].
  destruct (compile_lua_script desk (as_str desk entry_path) deps
              (Some output_path) false) as [r|result_path] eqn:Hc.
  - right. right. by eexists _, _.
  - left. by eexists _, _.
Qed.

(** A click on the build button of a window with a valid entry script. *)
Lemma start_build_valid w :
  (∀ n, strip desk (cwd_join desk n) ≠ "") →
  consistent desk w →
  valid_entry desk w →
  _start_build desk w
  = (_set_building (_set_status w "Building...") true, [],
     Some (strip desk (entry_script_var w),
           strip desk (generated_output desk (entry_script_var w)))).
Proof.
  intros Hjoin (Hout & _) Hvalid. unfold _start_build.
  rewrite (validate_valid w Hvalid), Hout.
  destruct Hvalid as (Hne & _ & Hsuf).
  assert (Hgen : strip desk (generated_output desk (entry_script_var w)) ≠ "").
  { unfold generated_output.
    destruct (decide (strip desk (entry_script_var w) = "")); [done|].
    destruct (decide (suffix desk (strip desk (entry_script_var w)) = ".lua"));
      [apply Hjoin|done]. }
  by destruct (decide (strip desk (generated_output desk (entry_script_var w))
                       = "")).
Qed.

(** The window once the callbacks of a worker have run. *)
Lemma run_callbacks_do_build w entry_path output_path :
  ∃ status,
    (status = "Build successful" ∨ status = "Build failed")
    ∧ (run_callbacks w (do_build desk entry_path output_path).2).1
      = _set_building (_set_status w status) false.
Proof.
  destruct (do_build_cases entry_path output_path)
    as [(deps & result_path & Hdeps & Hres)|[(r & Hr)|(deps & r & Hdeps & Hr)]].
  - rewrite (do_build_done _ _ _ _ Hdeps Hres).
    exists "Build successful". by split; [left|].
  - rewrite (do_build_analysis_raised _ _ _ Hr).
    exists "Build failed". split; [by right|]. by destruct r.
  - rewrite (do_build_engine_raised _ _ _ _ Hdeps Hr).
    exists "Build failed". split; [by right|]. by destruct r.
Qed.

End WithDesktop.



End GuiFacts.

(** * The properties of the graphical front end *)

(** X6. Whatever the user types or browses, whatever builds are started
    and whatever callbacks run, the output path shown is the one derived
    from the entry script, and the build button and the entry field are
    disabled exactly while a build is running. *)
Theorem gui_window_consistent (desk : Gui.Desktop) (actions : list Gui.Action) :
  Gui.strip desk "" = "" →
  Gui.consistent desk (Gui.reached desk actions).
Proof.
  apply GuiFacts.reached_consistent.
Qed.

Lemma gui_window_consistent_witness :
  Gui.strip GuiDemo.desktop "" = ""
  ∧ Gui.consistent GuiDemo.desktop
      (Gui.reached GuiDemo.desktop
         [Gui.Type_ "main.lua"; Gui.ClickBuild; Gui.Browse "";
          Gui.Run (Gui.SetStatus "Build successful")]).
Proof.
  split; [reflexivity|].
  exact (gui_window_consistent GuiDemo.desktop
           [Gui.Type_ "main.lua"; Gui.ClickBuild; Gui.Browse "";
            Gui.Run (Gui.SetStatus "Build successful")] eq_refl).
Defined.

(** X7. In every window the application can be in with no build running
    (the build button is then enabled), a click on the build button
    starts a worker exactly when the entry script is valid (not blank,
    on disk, with the [.lua] suffix): then no dialog is shown, the
    status is [Building...], the controls are disabled and the worker
    gets the stripped entry script and the output path derived from it;
    otherwise one error dialog is shown and nothing changes.  The dialog
    [Output path not generated.] is never shown. *)
Theorem gui_build_starts_iff_valid (desk : Gui.Desktop)
    (actions : list Gui.Action) :
  Gui.strip desk "" = "" →
  (∀ n, Gui.strip desk (Gui.cwd_join desk n) ≠ "") →
  Gui.is_building (Gui.reached desk actions) = false →
  Gui.build_button_state (Gui.reached desk actions) = "normal"
  ∧ (Gui.ShowError "Error" "Output path not generated."
     ∉ (Gui._start_build desk (Gui.reached desk actions)).1.2)
  ∧ (Gui.valid_entry desk (Gui.reached desk actions) →
     Gui._start_build desk (Gui.reached desk actions)
     = (Gui._set_building
          (Gui._set_status (Gui.reached desk actions) "Building...") true,
        [],
        Some (Gui.strip desk (Gui.entry_script_var (Gui.reached desk actions)),
              Gui.strip desk
                (Gui.generated_output desk
                   (Gui.entry_script_var (Gui.reached desk actions))))))
  ∧ (¬ Gui.valid_entry desk (Gui.reached desk actions) →
     ∃ text, Gui._start_build desk (Gui.reached desk actions)
             = (Gui.reached desk actions, [Gui.ShowError "Error" text], None)).
Proof.
  intros Hstrip Hjoin Hidle.
  pose proof (GuiFacts.reached_consistent desk actions Hstrip) as Hw.
  set (w := Gui.reached desk actions) in *.
  split; [destruct Hw as (_ & -> & _); by rewrite Hidle|].
  destruct (GuiFacts.valid_entry_cases desk w) as [Hvalid|Hinvalid].
  - rewrite (GuiFacts.start_build_valid desk w Hjoin Hw Hvalid).
    split; [apply not_elem_of_nil|]. split; [done|]. by intros [].
  - unfold Gui._start_build.
    destruct (GuiFacts.validate_invalid desk w Hinvalid) as (text & -> & Htext).
    split; [|split; [done|by exists text]]. simpl.
    intros Hin. apply list_elem_of_singleton in Hin. congruence.
Qed.

Lemma gui_build_starts_iff_valid_witness :
  Gui.strip GuiDemo.desktop "" = ""
  ∧ (∀ n, Gui.strip GuiDemo.desktop (Gui.cwd_join GuiDemo.desktop n) ≠ "")
  ∧ Gui.is_building (Gui.reached GuiDemo.desktop [Gui.Type_ "main.lua"])
    = false
  ∧ Gui.valid_entry GuiDemo.desktop
      (Gui.reached GuiDemo.desktop [Gui.Type_ "main.lua"])
  ∧ (Gui._start_build GuiDemo.desktop
       (Gui.reached GuiDemo.desktop [Gui.Type_ "main.lua"])).2
    = Some ("main.lua", "/work/main").
Proof.
  assert (Hjoin : ∀ n, Gui.strip GuiDemo.desktop
                         (Gui.cwd_join GuiDemo.desktop n) ≠ "")
    by (intros n; discriminate).
  assert (Hvalid : Gui.valid_entry GuiDemo.desktop
                     (Gui.reached GuiDemo.desktop [Gui.Type_ "main.lua"]))
    by (split; [discriminate|split; reflexivity]).
  split; [reflexivity|]. split; [exact Hjoin|]. split; [reflexivity|].
  split; [exact Hvalid|].
  destruct (gui_build_starts_iff_valid GuiDemo.desktop [Gui.Type_ "main.lua"]
              eq_refl Hjoin eq_refl) as (_ & _ & Hstart & _).
  rewrite (Hstart Hvalid). reflexivity.
Defined.

(** X8. When the main loop has run the callbacks of a worker, the window
    is enabled again whatever the worker met: no build is running, the
    build button and the entry field are [normal], and the entry script
    and the output path are untouched.  The status is [Build successful]
    and the [Success] dialog is shown exactly when both the analysis and
    the engine returned; otherwise the status is [Build failed]. *)
Theorem gui_worker_restores_window (desk : Gui.Desktop) (w : Gui.Window)
    (entry_path output_path : string) :
  let went_through :=
    ∃ deps result_path,
      Gui.analyze_dependencies desk (Gui.as_str desk entry_path) = inr deps
      ∧ Gui.compile_lua_script desk (Gui.as_str desk entry_path) deps
          (Some output_path) false = inr result_path in
  let finished :=
    Gui.run_callbacks w (Gui.do_build desk entry_path output_path).2 in
  Gui.is_building finished.1 = false
  ∧ Gui.build_button_state finished.1 = "normal"
  ∧ Gui.entry_script_entry_state finished.1 = "normal"
  ∧ Gui.entry_script_var finished.1 = Gui.entry_script_var w
  ∧ Gui.output_path_var finished.1 = Gui.output_path_var w
  ∧ (Gui.status_var finished.1 = "Build successful"
     ∨ Gui.status_var finished.1 = "Build failed")
  ∧ (Gui.status_var finished.1 = "Build successful" ↔ went_through)
  ∧ ((∃ text, Gui.ShowInfo "Success" text ∈ finished.2) ↔ went_through).
Proof.
  intros went_through finished. subst went_through finished.
  destruct (GuiFacts.do_build_cases desk entry_path output_path)
    as [(deps & result_path & Hdeps & Hres)|[(r & Hr)|(deps & r & Hdeps & Hr)]].
  - rewrite (GuiFacts.do_build_done desk _ _ _ _ Hdeps Hres). simpl.
    repeat (split; [done|]). split; [by left|].
    split; [split; [by exists deps, result_path|done]|].
    split; [by exists deps, result_path|].
    intros _. eexists. apply list_elem_of_here.
  - rewrite (GuiFacts.do_build_analysis_raised desk _ _ _ Hr).
    assert (Hnot : ¬ ∃ deps result_path,
               Gui.analyze_dependencies desk (Gui.as_str desk entry_path)
               = inr deps
               ∧ Gui.compile_lua_script desk (Gui.as_str desk entry_path) deps
                   (Some output_path) false = inr result_path)
      by (intros (deps & result_path & Hdeps & _); congruence).
    destruct r; simpl; repeat (split; [done|]);
      (split; [by right|]); (split; [by split|]);
      (split; [|done]);
      intros (shown & Hin); apply list_elem_of_singleton in Hin; discriminate.
  - rewrite (GuiFacts.do_build_engine_raised desk _ _ _ _ Hdeps Hr).
    assert (Hnot : ¬ ∃ deps result_path,
               Gui.analyze_dependencies desk (Gui.as_str desk entry_path)
               = inr deps
               ∧ Gui.compile_lua_script desk (Gui.as_str desk entry_path) deps
                   (Some output_path) false = inr result_path)
      by (intros (deps' & result_path & Hdeps' & Hres); congruence).
    destruct r; simpl; repeat (split; [done|]);
      (split; [by right|]); (split; [by split|]);
      (split; [|done]);
      intros (shown & Hin); apply list_elem_of_singleton in Hin; discriminate.
Qed.

(** X9. What a worker does to the outside: it starts with the analysis
    of the entry script; the engine is called exactly when the analysis
    returned, with the list the analysis gave, the output path of the
    window and [verbose=False]; and exactly one log entry is written,
    a success exactly when both the analysis and the engine returned. *)
Theorem gui_worker_effects (desk : Gui.Desktop)
    (entry_path output_path : string) :
  let entry := Gui.as_str desk entry_path in
  let effects := (Gui.do_build desk entry_path output_path).1 in
  head effects = Some (Gui.Analyzed entry)
  ∧ (∀ e d o v,
       Gui.Compiled e d o v ∈ effects
       ↔ e = entry ∧ Gui.analyze_dependencies desk entry = inr d
         ∧ o = Some output_path ∧ v = false)
  ∧ length (List.filter Gui.is_log effects) = 1
  ∧ ((∃ text, Gui.LoggedSuccess "gui" "build" text ∈ effects)
     ↔ ∃ deps result_path,
         Gui.analyze_dependencies desk entry = inr deps
         ∧ Gui.compile_lua_script desk entry deps (Some output_path) false
           = inr result_path).
Proof.
  intros entry effects. subst entry effects.
  destruct (GuiFacts.do_build_cases desk entry_path output_path)
    as [(deps & result_path & Hdeps & Hres)|[(r & Hr)|(deps & r & Hdeps & Hr)]].
  - rewrite (GuiFacts.do_build_done desk _ _ _ _ Hdeps Hres). simpl.
    split; [done|]. split; [|split; [done|]].
    + intros e d o v. rewrite !elem_of_cons, elem_of_nil. split.
      * intros [?|[Heq|[?|[]]]]; try discriminate.
        injection Heq as -> -> -> ->. done.
      * intros (-> & Hd & -> & ->). right. left. congruence.
    + split; [by exists deps, result_path|].
      intros _. eexists. do 2 apply list_elem_of_further.
      apply list_elem_of_here.
  - rewrite (GuiFacts.do_build_analysis_raised desk _ _ _ Hr).
    destruct r; simpl; (split; [done|]); (split; [|split; [done|]]).
    all: try (intros e' d o v; rewrite !elem_of_cons, elem_of_nil; split;
              [intros [?|[?|[]]]; discriminate
              |intros (_ & Hd & _); congruence]).
    all: split; [|intros (deps & result_path & Hdeps & _); congruence].
    all: intros (logged & Hin); rewrite !elem_of_cons, elem_of_nil in Hin;
      destruct Hin as [?|[?|[]]]; discriminate.
  - rewrite (GuiFacts.do_build_engine_raised desk _ _ _ _ Hdeps Hr).
    destruct r; simpl; (split; [done|]); (split; [|split; [done|]]).
    all: try (intros e' d o v; rewrite !elem_of_cons, elem_of_nil; split;
              [intros [?|[Heq|[?|[]]]]; try discriminate;
               injection Heq as -> -> -> ->; done
              |intros (-> & Hd & -> & ->); right; left; congruence]).
    all: split;
      [|intros (deps' & result_path & Hdeps' & Hres); congruence].
    all: intros (logged & Hin); rewrite !elem_of_cons, elem_of_nil in Hin;
      destruct Hin as [?|[?|[?|[]]]]; discriminate.
Qed.

(** X10. The worker builds as the library does: when the analyzer and
    the engine of the window are those of [build] (the analyzer at the
    bound [max_deps]), the worker calls the engine with the entry and the
    list that [build(entry, max_deps=max_deps, output=output_path)] calls
    it with, and logs a success exactly when that [build] returns. *)
Theorem gui_worker_as_library_build (desk : Gui.Desktop) (host : Host)
    (max_deps : Z) (entry_path output_path : string) :
  (∀ p, Gui.analyze_dependencies desk p
        = Gui.installer_only (analyze_dependencies host p max_deps)) →
  (∀ e d o v, Gui.compile_lua_script desk e d o v
              = Gui.installer_only (compile_lua_script host e d o v)) →
  (∀ e d o v,
     Gui.Compiled e d o v ∈ (Gui.do_build desk entry_path output_path).1
     ↔ EvCompile e d o v
       ∈ trace_of (Api.build host (Gui.as_str desk entry_path) None max_deps
                     (Some output_path) false))
  ∧ (∀ result_path,
       Gui.ShowSuccess ("Build successful!" +:+ Gui.newline +:+ Gui.newline
                        +:+ "Output:" +:+ Gui.newline +:+ result_path)
       ∈ (Gui.do_build desk entry_path output_path).2
       ↔ outcome_of (Api.build host (Gui.as_str desk entry_path) None max_deps
                       (Some output_path) false) = inr result_path).
Proof.
  intros Hanalyzer Hengine.
  unfold Gui.do_build, Gui.do_build_try. rewrite Hanalyzer.
  run_unfold. simpl.
  destruct (analyze_dependencies host (Gui.as_str desk entry_path) max_deps)
    as [err|deps]; simpl.
  { split.
    - intros e d o v. rewrite !elem_of_cons, !elem_of_nil. split.
      + intros [?|[?|[]]]; discriminate.
      + intros [?|[]]; discriminate.
    - intros result_path. rewrite !elem_of_cons, !elem_of_nil. split.
      + intros [?|[?|[?|[]]]]; discriminate.
      + discriminate. }
  rewrite Hengine.
  destruct (compile_lua_script host (Gui.as_str desk entry_path) deps
              (Some output_path) false) as [err|result]; simpl.
  - split.
    + intros e d o v. rewrite !elem_of_cons, !elem_of_nil. split.
      * intros [?|[Heq|[?|[]]]]; try discriminate. right. left. congruence.
      * intros [?|[Heq|[]]]; try discriminate. right. left. congruence.
    + intros result_path. rewrite !elem_of_cons, !elem_of_nil. split.
      * intros [?|[?|[?|[]]]]; discriminate.
      * discriminate.
  - split.
    + intros e d o v. rewrite !elem_of_cons, !elem_of_nil. split.
      * intros [?|[Heq|[?|[]]]]; try discriminate. right. left. congruence.
      * intros [?|[Heq|[?|[]]]]; try discriminate. right. left. congruence.
    + intros result_path. rewrite !elem_of_cons, !elem_of_nil. split.
      * intros [?|[Heq|[?|[]]]]; try discriminate.
        injection Heq as Heq. f_equal.
        by apply (inj (String.app _)) in Heq.
      * intros [= ->]. right. by left.
Qed.

Lemma gui_worker_as_library_build_witness :
  (∀ p, Gui.analyze_dependencies GuiDemo.desktop p
        = Gui.installer_only
            (analyze_dependencies (Demo.host Demo.main_util) p 36%Z))
  ∧ (∀ e d o v, Gui.compile_lua_script GuiDemo.desktop e d o v
                = Gui.installer_only
                    (compile_lua_script (Demo.host Demo.main_util) e d o v))
  ∧ EvCompile "main.lua" ["util.lua"] (Some "/work/main") false
    ∈ trace_of (Api.build (Demo.host Demo.main_util) "main.lua" None 36%Z
                  (Some "/work/main") false).
Proof.
  split; [intros p; reflexivity|]. split; [intros e d o v; reflexivity|].
  apply (gui_worker_as_library_build GuiDemo.desktop
           (Demo.host Demo.main_util) 36%Z "main.lua" "/work/main"
           (fun p => eq_refl) (fun e d o v => eq_refl)).
  vm_compute. apply list_elem_of_further, list_elem_of_here.
Defined.


(** X12. [run_gui] centres the window: the geometry it gives Tk is
    [520x320+x+y] where, horizontally, the position [x] is not negative
    exactly when the screen is at least as wide as the window, and the
    margin on the right exceeds the one on the left by at most one
    pixel; likewise vertically for [y]. *)
Theorem gui_window_centred (screen_width screen_height : Z) :
  ∃ x y : Z,
    Gui.geometry screen_width screen_height
    = "520x320+" +:+ pretty x +:+ "+" +:+ pretty y
    ∧ ((0 ≤ x ↔ 520 ≤ screen_width)
       ∧ 0 ≤ (screen_width - (x + 520)) - x ≤ 1
       ∧ (0 ≤ y ↔ 320 ≤ screen_height)
       ∧ 0 ≤ (screen_height - (y + 320)) - y ≤ 1)%Z.
Proof.
  exists (Gui.centered screen_width Gui.WINDOW_WIDTH),
         (Gui.centered screen_height Gui.WINDOW_HEIGHT).
  split; [reflexivity|].
  unfold Gui.centered, Gui.WINDOW_WIDTH, Gui.WINDOW_HEIGHT.
  repeat split; Z.div_mod_to_equations; lia.
Qed.

(** X13. A build leaves the window as it found it, but for the status:
    in a window the application can be in, with a valid entry script and
    no build running, a click on the build button starts a worker, and
    once the callbacks of that worker have run the window is the one
    before the click with the status [Build successful] or
    [Build failed]. *)
Theorem gui_build_round_trip (desk : Gui.Desktop) (actions : list Gui.Action) :
  Gui.strip desk "" = "" →
  (∀ n, Gui.strip desk (Gui.cwd_join desk n) ≠ "") →
  Gui.valid_entry desk (Gui.reached desk actions) →
  Gui.is_building (Gui.reached desk actions) = false →
  ∃ entry_path output_path status,
    (Gui._start_build desk (Gui.reached desk actions)).2
    = Some (entry_path, output_path)
    ∧ (status = "Build successful" ∨ status = "Build failed")
    ∧ (Gui.run_callbacks (Gui._start_build desk (Gui.reached desk actions)).1.1
         (Gui.do_build desk entry_path output_path).2).1
      = Gui._set_status (Gui.reached desk actions) status.
Proof.
  intros Hstrip Hjoin Hvalid Hidle.
  pose proof (GuiFacts.reached_consistent desk actions Hstrip) as Hw.
  set (w := Gui.reached desk actions) in *.
  rewrite (GuiFacts.start_build_valid desk w Hjoin Hw Hvalid). simpl.
  destruct (GuiFacts.run_callbacks_do_build desk
              (Gui._set_building (Gui._set_status w "Building...") true)
              (Gui.strip desk (Gui.entry_script_var w))
              (Gui.strip desk
                 (Gui.generated_output desk (Gui.entry_script_var w))))
    as (status & Hstatus & Hrun).
  eexists _, _, status. split; [done|]. split; [done|]. rewrite Hrun.
  destruct Hw as (_ & Hbutton & Hentry). rewrite Hidle in Hbutton.
  rewrite Hbutton in Hentry.
  destruct w; simpl in *. by subst.
Qed.

Lemma gui_build_round_trip_witness :
  Gui.strip GuiDemo.desktop "" = ""
  ∧ (∀ n, Gui.strip GuiDemo.desktop (Gui.cwd_join GuiDemo.desktop n) ≠ "")
  ∧ Gui.valid_entry GuiDemo.desktop
      (Gui.reached GuiDemo.desktop [Gui.Browse "main.lua"])
  ∧ Gui.is_building (Gui.reached GuiDemo.desktop [Gui.Browse "main.lua"])
    = false
  ∧ ∃ entry_path output_path status,
      (Gui._start_build GuiDemo.desktop
         (Gui.reached GuiDemo.desktop [Gui.Browse "main.lua"])).2
      = Some (entry_path, output_path)
      ∧ (status = "Build successful" ∨ status = "Build failed")
      ∧ (Gui.run_callbacks
           (Gui._start_build GuiDemo.desktop
              (Gui.reached GuiDemo.desktop [Gui.Browse "main.lua"])).1.1
           (Gui.do_build GuiDemo.desktop entry_path output_path).2).1
        = Gui._set_status
            (Gui.reached GuiDemo.desktop [Gui.Browse "main.lua"]) status.
Proof.
  assert (Hjoin : ∀ n, Gui.strip GuiDemo.desktop
                         (Gui.cwd_join GuiDemo.desktop n) ≠ "")
    by (intros n; discriminate).
  assert (Hvalid : Gui.valid_entry GuiDemo.desktop
                     (Gui.reached GuiDemo.desktop [Gui.Browse "main.lua"]))
    by (split; [discriminate|split; reflexivity]).
  split; [reflexivity|]. split; [exact Hjoin|]. split; [exact Hvalid|].
  split; [reflexivity|].
  exact (gui_build_round_trip GuiDemo.desktop [Gui.Browse "main.lua"]
           eq_refl Hjoin Hvalid eq_refl).
Defined.


(** * Properties of the test runner *)

Module TestSuiteFacts.
Import TestSuite.

Lemma results_of_snoc reports report :
  results_of (reports ++ [report]) = record (results_of reports) report.
Proof. unfold results_of. by rewrite foldl_app. Qed.

Lemma details_record r report :
  details (record r report) = details r ++ [detail_of report].
Proof. by destruct report. Qed.

Lemma details_results_of reports :
  details (results_of reports) = detail_of <$> reports.
Proof.
  induction reports as [|report reports IH] using rev_ind; [done|].
  by rewrite results_of_snoc, details_record, fmap_app, IH.
Qed.

Lemma status_count_record status r report :
  status_count status (record r report)
  = status_count status r
    + (if decide ((detail_of report).1.2 = status) then 1 else 0).
Proof.
  unfold status_count. rewrite details_record, filter_app, length_app.
  f_equal. rewrite filter_cons, filter_nil.
  by destruct (decide ((detail_of report).1.2 = status)).
Qed.

(** The counters count the details of their status. *)
Lemma counters_results_of reports :
  passed (results_of reports) = status_count "PASS" (results_of reports)
  ∧ failed (results_of reports) = status_count "FAIL" (results_of reports)
  ∧ skipped (results_of reports) = status_count "SKIP" (results_of reports).
Proof.
  induction reports as [|report reports (Hp & Hf & Hs)] using rev_ind;
    [done|].
  rewrite results_of_snoc, !status_count_record, <- Hp, <- Hf, <- Hs.
  destruct report; simpl; repeat split; lia.
Qed.

Lemma failed_lines_record r report :
  failed_lines (record r report)
  = failed_lines r ++ from_option (fun line => [line]) [] (failure_line report).
Proof.
  unfold failed_lines. rewrite details_record, omap_app.
  f_equal. by destruct report.
Qed.

Lemma failed_lines_results_of reports :
  failed_lines (results_of reports) = omap failure_line reports.
Proof.
  induction reports as [|report reports IH] using rev_ind; [done|].
  rewrite results_of_snoc, failed_lines_record, omap_app, IH.
  by destruct report.
Qed.

Lemma failed_results_of reports :
  failed (results_of reports) = length (omap failure_line reports).
Proof.
  induction reports as [|report reports IH] using rev_ind; [done|].
  rewrite results_of_snoc, omap_app, length_app, <- IH.
  destruct report; simpl; lia.
Qed.

Lemma no_failure_line reports :
  omap failure_line reports = []
  ↔ ∀ name message, Fail name message ∉ reports.
Proof.
  induction reports as [|report reports IH]; simpl.
  - split; [intros _ name message; apply not_elem_of_nil|done].
  - destruct report as [name message|name message|name reason]; simpl.
    + rewrite IH. split; intros Hno name' message' Hin.
      * apply elem_of_cons in Hin as [?|Hin]; [done|]. by apply Hno in Hin.
      * apply (Hno name' message'). by apply list_elem_of_further.
    + split; [done|]. intros Hno. destruct (Hno name message).
      apply list_elem_of_here.
    + rewrite IH. split; intros Hno name' message' Hin.
      * apply elem_of_cons in Hin as [?|Hin]; [done|]. by apply Hno in Hin.
      * apply (Hno name' message'). by apply list_elem_of_further.
Qed.

Lemma exit_code_zero reports :
  exit_code (results_of reports) = 0%Z
  ↔ ∀ name message, Fail name message ∉ reports.
Proof.
  unfold exit_code. rewrite failed_results_of, <- no_failure_line.
  destruct (decide (length (omap failure_line reports) = 0)) as [Hzero|Hpos].
  - by apply length_zero_iff_nil in Hzero.
  - split; [done|]. intros Hnil. by rewrite Hnil in Hpos.
Qed.

Lemma check_attr_no_failure (attributes attrs : list string) :
  (∀ name message, Fail name message ∉ check_attr attributes <$> attrs)
  ↔ ∀ attr, attr ∈ attrs → attr ∈ attributes.
Proof.
  induction attrs as [|attr attrs IH].
  - split; [intros _ attr Hin; by apply elem_of_nil in Hin|].
    intros _ name message. apply not_elem_of_nil.
  - rewrite fmap_cons. unfold check_attr at 1.
    destruct (bool_decide (attr ∈ attributes)) eqn:Hattr.
    + apply bool_decide_eq_true_1 in Hattr. split.
      * intros Hno attr' [->|Hin]%elem_of_cons; [done|].
        apply IH; [|done]. intros name message Hin'.
        apply (Hno name message). by apply list_elem_of_further.
      * intros Hall name message [?|Hin]%elem_of_cons; [done|].
        revert Hin. apply IH. intros attr' Hin'. apply Hall.
        by apply list_elem_of_further.
    + apply bool_decide_eq_false_1 in Hattr. split.
      * intros Hno. destruct (Hno ("Has attribute: " +:+ attr)
                                 "Attribute not found").
        apply list_elem_of_here.
      * intros Hall. destruct Hattr. apply Hall, list_elem_of_here.
Qed.

End TestSuiteFacts.

(** * The properties of the test runner *)

(** X14. Whatever the tests report, the counters and the details of the
    results agree: the details are those of the reports, in order, and
    each counter is the number of details with its status; so the total
    the summary prints on its fourth line is the number of reports, and
    the three lines after it print the numbers of details with the
    status [PASS], [FAIL] and [SKIP]. *)
Theorem test_results_tally (reports : list TestSuite.Report) :
  let r := TestSuite.results_of reports in
  TestSuite.details r = TestSuite.detail_of <$> reports
  ∧ TestSuite.passed r = TestSuite.status_count "PASS" r
  ∧ TestSuite.failed r = TestSuite.status_count "FAIL" r
  ∧ TestSuite.skipped r = TestSuite.status_count "SKIP" r
  ∧ TestSuite.passed r + TestSuite.failed r + TestSuite.skipped r
    = length reports
  ∧ TestSuite.summary r !! 3 = Some ("Total:   " +:+ pretty (length reports))
  ∧ TestSuite.summary r !! 4
    = Some ("Passed:  " +:+ pretty (TestSuite.status_count "PASS" r))
  ∧ TestSuite.summary r !! 5
    = Some ("Failed:  " +:+ pretty (TestSuite.status_count "FAIL" r))
  ∧ TestSuite.summary r !! 6
    = Some ("Skipped: " +:+ pretty (TestSuite.status_count "SKIP" r)).
Proof.
  intros r. subst r.
  split; [apply TestSuiteFacts.details_results_of|].
  pose proof (TestSuiteFacts.counters_results_of reports) as (Hp & Hf & Hs).
  repeat (split; [done|]).
  assert (Htotal : TestSuite.passed (TestSuite.results_of reports)
                   + TestSuite.failed (TestSuite.results_of reports)
                   + TestSuite.skipped (TestSuite.results_of reports)
                   = length reports).
  { clear Hp Hf Hs.
    induction reports as [|report reports IH] using rev_ind; [done|].
    rewrite TestSuiteFacts.results_of_snoc, length_app. simpl.
    destruct report; simpl; lia. }
  split; [done|]. rewrite <- Htotal, <- Hp, <- Hf, <- Hs.
  by repeat split.
Qed.

(** X15. The exit code of the test script, when the tests return: it is
    0 exactly when no test reported a failure (skipped tests do not
    count), and 1 otherwise. *)
Theorem test_exit_code_zero_iff_no_failure (reports : list TestSuite.Report) :
  (TestSuite.exit_code (TestSuite.results_of reports) = 0%Z
   ↔ ∀ name message, TestSuite.Fail name message ∉ reports)
  ∧ (TestSuite.exit_code (TestSuite.results_of reports) = 1%Z
     ↔ ∃ name message, TestSuite.Fail name message ∈ reports).
Proof.
  unfold TestSuite.exit_code.
  rewrite TestSuiteFacts.failed_results_of.
  rewrite <- TestSuiteFacts.no_failure_line.
  destruct (decide (length (omap TestSuite.failure_line reports) = 0))
    as [Hzero|Hpos].
  - apply length_zero_iff_nil in Hzero. split; [done|].
    split; [done|]. intros (name & message & Hin).
    by apply (proj1 (TestSuiteFacts.no_failure_line reports) Hzero) in Hin.
  - split; [split; [done|]; intros Hnil; by rewrite Hnil in Hpos|].
    split; [intros _|done].
    destruct (omap TestSuite.failure_line reports) as [|line lines] eqn:Hlines;
      [done|].
    assert (Hin : line ∈ omap TestSuite.failure_line reports)
      by (rewrite Hlines; apply list_elem_of_here).
    apply list_elem_of_omap in Hin as ([name message|name message|name reason]
                                   & Hin & Hline); try discriminate.
    by exists name, message.
Qed.

(** X16. The summary lists the failures: after its seven head lines,
    the summary prints, when some test reported a failure, the heading
    [FAILED TESTS:] and the lines of the tests that failed, one each, in
    the order they ran, and then the closing divider - and the closing
    divider alone when no test failed.  The [Failed:] line counts these
    lines. *)
Theorem test_summary_lists_failures (reports : list TestSuite.Report) :
  let r := TestSuite.results_of reports in
  drop 7 (TestSuite.summary r)
  = match omap TestSuite.failure_line reports with
    | [] => []
    | lines =>
        [TestSuite.newline +:+ TestSuite.SECTION_DIVIDER; "FAILED TESTS:"]
          ++ lines
    end ++ [TestSuite.DIVIDER]
  ∧ TestSuite.summary r !! 5
    = Some ("Failed:  "
            +:+ pretty (length (omap TestSuite.failure_line reports)))
  ∧ ("FAILED TESTS:" ∈ TestSuite.summary r
     ↔ ∃ name message, TestSuite.Fail name message ∈ reports).
Proof.
  intros r. subst r.
  unfold TestSuite.summary.
  rewrite TestSuiteFacts.failed_lines_results_of,
    TestSuiteFacts.failed_results_of.
  split; [|split; [reflexivity|]].
  - simpl.
    destruct (omap TestSuite.failure_line reports) as [|line lines];
      [done|].
    destruct (decide (0 < length (line :: lines))) as [_|Hzero];
      [done|simpl in Hzero; lia].
  - destruct (decide (0 < length (omap TestSuite.failure_line reports)))
      as [Hpos|Hzero].
    + split.
      * intros _.
        destruct (omap TestSuite.failure_line reports) as [|line lines]
          eqn:Hlines; [simpl in Hpos; lia|].
        assert (Hin : line ∈ omap TestSuite.failure_line reports)
          by (rewrite Hlines; apply list_elem_of_here).
        apply list_elem_of_omap in Hin
            as ([name message|name message|name reason] & Hin & Hline);
          try discriminate.
        by exists name, message.
      * intros _. apply elem_of_app. right. apply elem_of_app. left.
        apply list_elem_of_further, list_elem_of_here.
    + split.
      * intros Hin. exfalso. simpl in Hin.
        rewrite !elem_of_cons, elem_of_nil in Hin.
        destruct Hin as [H|[H|[H|[H|[H|[H|[H|[H|[]]]]]]]]]; discriminate.
      * intros (name & message & Hin). exfalso.
        assert (Hnil : omap TestSuite.failure_line reports = [])
          by (apply length_zero_iff_nil; lia).
        by apply (proj1 (TestSuiteFacts.no_failure_line reports) Hnil) in Hin.
Qed.

(** X17. The test script needs the whole interface: when [_test_import]
    returns, the exit code is 0 exactly when the package imports and has
    every one of the six required attributes, and no later test reports
    a failure. *)
Theorem test_exit_code_needs_required_attrs
    (imported : string + list string * string)
    (reports rest : list TestSuite.Report) :
  TestSuite._test_import imported = Some reports →
  TestSuite.exit_code (TestSuite.results_of (reports ++ rest)) = 0%Z
  ↔ (∃ attributes version,
        imported = inr (attributes, version)
        ∧ ∀ attr, attr ∈ TestSuite.required_attrs → attr ∈ attributes)
    ∧ ∀ name message, TestSuite.Fail name message ∉ rest.
Proof.
  intros Himport. rewrite TestSuiteFacts.exit_code_zero.
  assert (Hsplit : (∀ name message, TestSuite.Fail name message ∉ reports ++ rest)
                   ↔ (∀ name message, TestSuite.Fail name message ∉ reports)
                     ∧ (∀ name message, TestSuite.Fail name message ∉ rest)).
  { split.
    - intros Hno. split; intros name message Hin; apply (Hno name message);
        apply elem_of_app; [by left|by right].
    - intros (Hl & Hr) name message [Hin|Hin]%elem_of_app;
        [by apply Hl in Hin|by apply Hr in Hin]. }
  rewrite Hsplit. clear Hsplit.
  destruct imported as [text|[attributes version]]; simpl in Himport.
  - injection Himport as <-. split.
    + intros (Hno & _). destruct (Hno "Import luainstaller" text).
      apply list_elem_of_here.
    + by intros ((attributes & version & Himported & _) & _).
  - destruct (bool_decide ("__version__" ∈ attributes)); [|done].
    injection Himport as <-.
    assert (Hhead : (∀ name message,
                        TestSuite.Fail name message
                        ∉ TestSuite.Pass "Import luainstaller"
                            ("Version: " +:+ version)
                          :: (TestSuite.check_attr attributes
                                <$> TestSuite.required_attrs))
                    ↔ ∀ attr, attr ∈ TestSuite.required_attrs →
                              attr ∈ attributes).
    { rewrite <- TestSuiteFacts.check_attr_no_failure. split.
      - intros Hno name message Hin. apply (Hno name message).
        by apply list_elem_of_further.
      - intros Hno name message [?|Hin]%elem_of_cons; [done|].
        by apply Hno in Hin. }
    rewrite Hhead. split.
    + intros (Hall & Hrest). split; [|done]. by exists attributes, version.
    + intros ((attributes' & version' & [= <- <-] & Hall) & Hrest). done.
Qed.

(** The names [__init__.py] binds lack [get_engines]: run against them,
    the script does not exit with 0. *)
Lemma test_exit_code_needs_required_attrs_witness :
  (∃ reports,
      TestSuite._test_import (inr (Api.bound_names, Api.__version__))
      = Some reports
      ∧ TestSuite.exit_code (TestSuite.results_of (reports ++ [])) ≠ 0%Z).
Proof.
  eexists. split; [reflexivity|].
  intros Hzero.
  apply (test_exit_code_needs_required_attrs
           (inr (Api.bound_names, Api.__version__)) _ [] eq_refl) in Hzero
    as ((attributes & version & [= <- <-] & Hall) & _).
  assert (Hin : "get_engines" ∈ Api.bound_names).
  { apply Hall. apply list_elem_of_further, list_elem_of_further,
      list_elem_of_here. }
  revert Hin. apply (bool_decide_eq_false_1 ("get_engines" ∈ Api.bound_names)).
  reflexivity.
Defined.
